(** * pi_microsleep_hard: busy-wait delay on the BCM system timer

    Shallow embedding of [src/pi_microsleep_hard.c].  The two functions of
    the file, [setup_microsleep_hard] and [microsleep_hard], are written as
    functions over the three globals of the translation unit.  The
    collaborators the file calls ([get_pi_version__], [map_peripheral__])
    and the memory-mapped timer are an [environment] of oracles; every
    interaction with them is appended to a log kept beside the globals, so
    that statements about "which calls were made" are statements about the
    log. *)

From Stdlib Require Import ZArith List Lia Bool.
Import ListNotations.
Local Open Scope Z_scope.

(** ** Machine integers *)

(** [uint32_t] arithmetic: every result is reduced modulo [2^32]. *)
Definition UINT32_MOD : Z := 2 ^ 32.
Definition wrap_uint32 (x : Z) : Z := x mod UINT32_MOD.

Definition wrap_int (x : Z) : Z := (x + 2 ^ 31) mod UINT32_MOD - 2 ^ 31.

(** ** Constants of the headers

    [ENOPIVER] comes from [pi_microsleep_hard.h] and the peripheral
    addresses from [bcm.h]; neither header is part of the sources at hand,
    so their macros are fields of a record the whole development is
    parametrised by. *)
Record headers : Type := mkHeaders {
  ENOPIVER : Z;
  BCM2835_PERI_BASE_PHYS_ADDR : Z;
  BCM2837_PERI_BASE_PHYS_ADDR : Z;
  BCM2711_PERI_BASE_PHYS_ADDR : Z;
  BCM2712_PERI_BASE_PHYS_ADDR : Z;
  BCM_SYS_TIMER_BASE_OFFSET : Z
}.

(** Pointers are integers.  [NULL] is the value of a static pointer that
    was never assigned; [MAP_FAILED] is [((void * ) -1)] of [<sys/mman.h>]. *)
Definition NULL : Z := 0.
Definition MAP_FAILED : Z := -1.

(** ** The timer register overlay, [struct sys_timer_reg_map] *)
Inductive reg : Type := cs | clo | chi | c0 | c1 | c2 | c3.

(** Byte offset of each [uint32_t] field in the structure. *)
Definition reg_offset (r : reg) : Z :=
  match r with
  | cs => 0 | clo => 4 | chi => 8 | c0 => 12 | c1 => 16 | c2 => 20 | c3 => 24
  end.

(** ** Interactions with the outside *)
Inductive event : Type :=
| EvGetPiVersion (ret : Z)
| EvMapPeripheral (phys_addr : Z) (ret : Z)
| EvRegRead (r : reg) (val : Z)
| EvRegWrite (r : reg) (val : Z).

(** The log holds the most recent event first. *)
Definition resolver_calls (l : list event) : nat :=
  length (filter (fun e => match e with EvGetPiVersion _ => true | _ => false end) l).

Definition mapper_calls (l : list event) : nat :=
  length (filter (fun e => match e with EvMapPeripheral _ _ => true | _ => false end) l).

Definition reg_accesses (l : list event) : nat :=
  length (filter (fun e => match e with
                           | EvRegRead _ _ | EvRegWrite _ _ => true
                           | _ => false end) l).

(** Mapper calls that produced a mapping. *)
Definition mappings_made (l : list event) : nat :=
  length (filter (fun e => match e with
                           | EvMapPeripheral _ p => negb (p =? MAP_FAILED)
                           | _ => false end) l).

(** The environment answers the n-th call of each kind.  [counter] is the
    64-bit free-running counter of the timer at the n-th register access;
    [clo] shows its low and [chi] its high 32 bits. *)
Record environment : Type := mkEnv {
  get_pi_version__ : nat -> Z;
  map_peripheral__ : nat -> Z -> Z;
  counter : nat -> Z
}.

(** ** Globals of the translation unit, with the log *)
Record state : Type := mkState {
  sys_timer_virt_addr : Z;
  config_flag : Z;
  sys_timer_reg : Z;
  log : list event
}.

(** State of a process at start: zero-initialised globals, nothing logged. *)
Definition initial_state : state := mkState NULL 0 NULL [].

Definition push (e : event) (s : state) : state :=
  mkState (sys_timer_virt_addr s) (config_flag s) (sys_timer_reg s) (e :: log s).

Definition set_sys_timer_virt_addr (p : Z) (s : state) : state :=
  mkState p (config_flag s) (sys_timer_reg s) (log s).

Definition set_config_flag (v : Z) (s : state) : state :=
  mkState (sys_timer_virt_addr s) v (sys_timer_reg s) (log s).

Definition set_sys_timer_reg (p : Z) (s : state) : state :=
  mkState (sys_timer_virt_addr s) (config_flag s) p (log s).

(** What a call can come to: it returns, it dereferences a pointer that
    maps nothing, or it is still in its loop when the fuel is spent. *)
Inductive outcome : Type :=
| Returned (ret : Z) (s : state)
| Fault (s : state)
| Spinning (s : state).

Definition final_state (o : outcome) : state :=
  match o with Returned _ s | Fault s | Spinning s => s end.

(** The same three ways for the loop alone. *)
Inductive loop_result : Type :=
| Exited (s : state)
| LoopFault (s : state)
| OutOfFuel (s : state).

Section Program.

Variable hdr : headers.
Variable env : environment.

(** The if-chain of [setup_microsleep_hard] choosing the peripheral base,
    stored in the local [int bcm_peri_base_phys_addr]; [None] is its final
    [else]. *)
Definition select_peri_base (pi_version : Z) : option Z :=
  if (pi_version =? 0) || (pi_version =? 1) then
    Some (wrap_int (BCM2835_PERI_BASE_PHYS_ADDR hdr))
  else if (pi_version =? 2) || (pi_version =? 3) then
    Some (wrap_int (BCM2837_PERI_BASE_PHYS_ADDR hdr))
  else if pi_version =? 4 then
    Some (wrap_int (BCM2711_PERI_BASE_PHYS_ADDR hdr))
  else if pi_version =? 5 then
    Some (wrap_int (BCM2712_PERI_BASE_PHYS_ADDR hdr))
  else None.

Definition call_get_pi_version (s : state) : Z * state :=
  let v := get_pi_version__ env (resolver_calls (log s)) in
  (v, push (EvGetPiVersion v) s).

Definition call_map_peripheral (addr_p : Z) (s : state) : Z * state :=
  let p := map_peripheral__ env (mapper_calls (log s)) addr_p in
  (p, push (EvMapPeripheral addr_p p) s).

(** [int setup_microsleep_hard(void)] *)
Definition setup_microsleep_hard (s : state) : Z * state :=
  if negb (config_flag s =? 0) then (0, s)
  else
    let (pi_version, s1) := call_get_pi_version s in
    match select_peri_base pi_version with
    | None => (- ENOPIVER hdr, s1)
    | Some bcm_peri_base_phys_addr =>
        let sys_timer_phys_addr :=
          wrap_int (bcm_peri_base_phys_addr + BCM_SYS_TIMER_BASE_OFFSET hdr) in
        let (p, s2) := call_map_peripheral sys_timer_phys_addr s1 in
        let s3 := set_sys_timer_virt_addr p s2 in
        if sys_timer_virt_addr s3 =? MAP_FAILED then (wrap_int MAP_FAILED, s3)
        else
          let s4 := set_config_flag 1 s3 in
          let s5 := set_sys_timer_reg (sys_timer_virt_addr s4) s4 in
          (0, s5)
    end.

(** What the hardware shows in register [r] at its n-th access.  Only the
    two counter registers are given a value; the program reads no other. *)
Definition reg_value (r : reg) (n : nat) : Z :=
  match r with
  | clo => wrap_uint32 (counter env n)
  | chi => wrap_uint32 (counter env n / UINT32_MOD)
  | _ => 0
  end.

(** A pointer through which the overlay can be accessed. *)
Definition mapped (p : Z) : bool := negb (p =? NULL) && negb (p =? MAP_FAILED).

(** Volatile read [sys_timer_reg->r]: [None] when the pointer maps nothing. *)
Definition load_reg (r : reg) (s : state) : option (Z * state) :=
  if mapped (sys_timer_reg s) then
    let v := reg_value r (reg_accesses (log s)) in
    Some (v, push (EvRegRead r v) s)
  else None.

(** [while (sys_timer_reg->clo < timout);] with at most [fuel] evaluations
    of the condition. *)
Fixpoint spin (fuel : nat) (timout : Z) (s : state) : loop_result :=
  match fuel with
  | O => OutOfFuel s
  | S fuel' =>
      match load_reg clo s with
      | None => LoopFault s
      | Some (v, s') => if v <? timout then spin fuel' timout s' else Exited s'
      end
  end.

(** [int microsleep_hard(unsigned int usec)].  The value of the call to
    [setup_microsleep_hard] is dropped, as in the source. *)
Definition microsleep_hard (fuel : nat) (usec : Z) (s : state) : outcome :=
  let s1 := if config_flag s =? 0 then snd (setup_microsleep_hard s) else s in
  match load_reg clo s1 with
  | None => Fault s1
  | Some (v, s2) =>
      let timout := wrap_uint32 (v + usec) in
      match spin fuel timout s2 with
      | Exited s3 => Returned 0 s3
      | LoopFault s3 => Fault s3
      | OutOfFuel s3 => Spinning s3
      end
  end.

(** [n] calls of [setup_microsleep_hard] in a row. *)
Fixpoint setup_times (n : nat) (s : state) : state :=
  match n with
  | O => s
  | S n' => setup_times n' (snd (setup_microsleep_hard s))
  end.

(** Names for the steps of [setup_microsleep_hard]: the state in which the
    mapper is called, the address it is called with from the base [b], and
    its answer. *)
Definition next_pi_version (s : state) : Z :=
  get_pi_version__ env (resolver_calls (log s)).

Definition after_resolver (s : state) : state :=
  push (EvGetPiVersion (next_pi_version s)) s.

Definition timer_phys_addr (b : Z) : Z :=
  wrap_int (b + BCM_SYS_TIMER_BASE_OFFSET hdr).

Definition mapper_answer (s : state) (b : Z) : Z :=
  map_peripheral__ env (mapper_calls (log s)) (timer_phys_addr b).

(** The value [clo] shows at the n-th register access, and the state after
    [j] consecutive reads of [clo] through a mapped pointer. *)
Definition clo_at (n : nat) : Z := reg_value clo n.

Fixpoint polled (j : nat) (s : state) : state :=
  match j with
  | O => s
  | S j' => polled j' (push (EvRegRead clo (clo_at (reg_accesses (log s)))) s)
  end.

(** The state is one a call can start in after configuration: the flag is
    set and the register pointer maps the timer. *)
Definition configured (s : state) : Prop :=
  config_flag s <> 0 /\ mapped (sys_timer_reg s) = true.

End Program.

(** ** Sample inputs

    Concrete headers and environments on which the definitions are run.
    The addresses are those of the data sheets of the four chips; any
    other values would do. *)
Definition sample_headers : headers :=
  mkHeaders 140 0x20000000 0x3F000000 0xFE000000 0x107C000000 0x3000.

(** An environment that always reports generation [version], whose mapper
    answers [ptr i] to its i-th call, and whose counter stands at [t0] at
    the first register access and gains one tick per access. *)
Definition sample_env (version : Z) (ptr : nat -> Z) (t0 : Z) : environment :=
  mkEnv (fun _ => version) (fun i _ => ptr i) (fun n => t0 + Z.of_nat n).

Definition sample_ptr : Z := 0x76F3A000.

(** A Pi 3 on which mapping works. *)
Definition env_pi3 (t0 : Z) : environment := sample_env 3 (fun _ => sample_ptr) t0.

(** A board the resolver does not recognise. *)
Definition env_unknown_board : environment := sample_env (-1) (fun _ => sample_ptr) 0.

(** A Pi 3 on which the first mapping fails and the later ones work. *)
Definition env_map_fails_once : environment :=
  sample_env 3 (fun i => if Nat.eqb i 0 then MAP_FAILED else sample_ptr) 0.

(** Counter values five ticks and one tick before [clo] wraps. *)
Definition t_near_wrap : Z := UINT32_MOD - 5.
Definition t_last : Z := UINT32_MOD - 1.

(** The state after a successful setup on a Pi 3. *)
Definition pi3_ready (t0 : Z) : state :=
  snd (setup_microsleep_hard sample_headers (env_pi3 t0) initial_state).


(** The generations the if-chain knows. *)
Definition known_generation (v : Z) : Prop := 0 <= v <= 5.

(** Events a call may add to the log under the frame condition of the
    spin-wait engine: no register write, and no register read but [clo]. *)
Definition reads_only_clo (e : event) : Prop :=
  match e with
  | EvRegWrite _ _ => False
  | EvRegRead r _ => r = clo
  | _ => True
  end.

(** [s'] is [s] with more events logged, each of them satisfying [P]. *)
Definition extends (P : event -> Prop) (s s' : state) : Prop :=
  exists new, log s' = new ++ log s /\ Forall P new.

Definition loop_state (r : loop_result) : state :=
  match r with Exited s | LoopFault s | OutOfFuel s => s end.

(** No global differs between [s] and [s']. *)
Definition same_globals (s s' : state) : Prop :=
  sys_timer_virt_addr s' = sys_timer_virt_addr s
  /\ config_flag s' = config_flag s
  /\ sys_timer_reg s' = sys_timer_reg s.

(** What holds of the globals in every state the two functions can reach
    from [initial_state]: unconfigured, the register pointer is still
    [NULL]; configured, it is the address the mapper gave, which is not
    [MAP_FAILED]. *)
Definition well_formed (s : state) : Prop :=
  (config_flag s = 0 -> sys_timer_reg s = NULL)
  /\ (config_flag s <> 0 ->
      sys_timer_reg s = sys_timer_virt_addr s /\ sys_timer_virt_addr s <> MAP_FAILED).


(** A Pi 3 on which the mapper answers [NULL]. *)
Definition env_null_mapping : environment := sample_env 3 (fun _ => NULL) 0.

(** Register reads, the only events the loop logs. *)
Definition is_reg_read (e : event) : Prop :=
  match e with EvRegRead _ _ => True | _ => False end.

(** The states a process can be in between two calls: the start state, and
    the state either function leaves when it returns.  A call of
    [microsleep_hard] that faults or never leaves its loop has no state
    after it. *)
Inductive reachable (hdr : headers) (env : environment) : state -> Prop :=
| reach_start : reachable hdr env initial_state
| reach_setup s :
    reachable hdr env s ->
    reachable hdr env (snd (setup_microsleep_hard hdr env s))
| reach_microsleep s fuel usec ret s' :
    reachable hdr env s ->
    microsleep_hard hdr env fuel usec s = Returned ret s' ->
    reachable hdr env s'.

(** The flag counts the mappings made: none while it is 0, one once it
    is 1, and it has no other value. *)
Definition flag_counts_mappings (s : state) : Prop :=
  (config_flag s = 0 /\ mappings_made (log s) = O)
  \/ (config_flag s = 1 /\ mappings_made (log s) = 1%nat).

(** ** Machine integers: facts *)


Lemma wrap_int_MAP_FAILED : wrap_int MAP_FAILED = -1.
Proof. reflexivity. Qed.

Lemma wrap_uint32_range x : 0 <= wrap_uint32 x < UINT32_MOD.
Proof. unfold wrap_uint32, UINT32_MOD. apply Z.mod_pos_bound. lia. Qed.

Lemma wrap_uint32_small x : 0 <= x < UINT32_MOD -> wrap_uint32 x = x.
Proof. unfold wrap_uint32. apply Z.mod_small. Qed.

(** ** The log counters *)

Lemma reg_accesses_read r v l : reg_accesses (EvRegRead r v :: l) = S (reg_accesses l).
Proof. reflexivity. Qed.

Arguments reg_accesses : simpl never.

Lemma mappings_made_failed a l :
  mappings_made (EvMapPeripheral a MAP_FAILED :: l) = mappings_made l.
Proof. reflexivity. Qed.

Lemma mappings_made_ok a p l :
  p <> MAP_FAILED ->
  mappings_made (EvMapPeripheral a p :: l) = S (mappings_made l).
Proof.
  intros H. unfold mappings_made. simpl.
  destruct (Z.eqb_spec p MAP_FAILED); [contradiction | reflexivity].
Qed.

(** ** [setup_microsleep_hard], path by path *)
Section SetupPaths.

Variable hdr : headers.
Variable env : environment.

Lemma select_peri_base_known v :
  known_generation v -> exists b, select_peri_base hdr v = Some b.
Proof.
  unfold known_generation, select_peri_base. intros H.
  assert (v = 0 \/ v = 1 \/ v = 2 \/ v = 3 \/ v = 4 \/ v = 5) as Hv by lia.
  destruct Hv as [-> | [-> | [-> | [-> | [-> | ->]]]]]; simpl; eauto.
Qed.

Lemma select_peri_base_unknown v :
  ~ known_generation v -> select_peri_base hdr v = None.
Proof.
  unfold known_generation, select_peri_base. intros H.
  destruct (Z.eqb_spec v 0); [lia|]. destruct (Z.eqb_spec v 1); [lia|].
  destruct (Z.eqb_spec v 2); [lia|]. destruct (Z.eqb_spec v 3); [lia|].
  destruct (Z.eqb_spec v 4); [lia|]. destruct (Z.eqb_spec v 5); [lia|].
  reflexivity.
Qed.


(** Already configured: the guard returns at once. *)
Lemma setup_configured s : config_flag s <> 0 -> setup_microsleep_hard hdr env s = (0, s).
Proof.
  intros H. unfold setup_microsleep_hard.
  destruct (Z.eqb_spec (config_flag s) 0); [contradiction | reflexivity].
Qed.

(** Not configured, generation not known. *)
Lemma setup_unknown s :
  config_flag s = 0 ->
  select_peri_base hdr (next_pi_version env s) = None ->
  setup_microsleep_hard hdr env s = (- ENOPIVER hdr,
             after_resolver env s).
Proof.
  intros Hf Hsel. unfold next_pi_version in *.
  unfold setup_microsleep_hard, call_get_pi_version.
  rewrite Hf. simpl. rewrite Hsel. reflexivity.
Qed.

(** Not configured, generation known, the mapper fails. *)
Lemma setup_map_failed s b :
  config_flag s = 0 ->
  select_peri_base hdr (next_pi_version env s) = Some b ->
  mapper_answer hdr env s b = MAP_FAILED ->
  setup_microsleep_hard hdr env s = (-1, set_sys_timer_virt_addr MAP_FAILED
                   (push (EvMapPeripheral (timer_phys_addr hdr b) MAP_FAILED)
                         (after_resolver env s))).
Proof.
  intros Hf Hsel Hmap. unfold next_pi_version in *.
  unfold setup_microsleep_hard, call_get_pi_version.
  rewrite Hf. simpl. rewrite Hsel. unfold call_map_peripheral. simpl.
  unfold mapper_answer, timer_phys_addr in Hmap. unfold mapper_calls in *.
  simpl. rewrite Hmap. reflexivity.
Qed.

(** Not configured, generation known, the mapper succeeds. *)
Lemma setup_map_ok s b :
  config_flag s = 0 ->
  select_peri_base hdr (next_pi_version env s) = Some b ->
  mapper_answer hdr env s b <> MAP_FAILED ->
  setup_microsleep_hard hdr env s = (0, mkState (mapper_answer hdr env s b) 1 (mapper_answer hdr env s b)
                        (EvMapPeripheral (timer_phys_addr hdr b) (mapper_answer hdr env s b)
                           :: EvGetPiVersion (next_pi_version env s)
                           :: log s)).
Proof.
  intros Hf Hsel Hmap. unfold next_pi_version in *.
  unfold setup_microsleep_hard, call_get_pi_version.
  rewrite Hf. simpl. rewrite Hsel. unfold call_map_peripheral. simpl.
  unfold mapper_answer, timer_phys_addr in *. unfold mapper_calls in *.
  simpl.
  destruct (Z.eqb_spec (map_peripheral__ env
     (length (filter (fun e => match e with EvMapPeripheral _ _ => true | _ => false end) (log s)))
     (wrap_int (b + BCM_SYS_TIMER_BASE_OFFSET hdr))) MAP_FAILED); [contradiction | reflexivity].
Qed.

End SetupPaths.

(** ** The initializer: platform dispatch and mapping failure *)

(** A call made unconfigured always asks the resolver first. *)
Lemma setup_unconfigured_log hdr env s :
  config_flag s = 0 ->
  (~ known_generation (next_pi_version env s) ->
     setup_microsleep_hard hdr env s = (- ENOPIVER hdr, after_resolver env s))
  /\ (known_generation (next_pi_version env s) ->
     exists a p,
       log (snd (setup_microsleep_hard hdr env s))
       = EvMapPeripheral a p :: EvGetPiVersion (next_pi_version env s) :: log s).
Proof.
  intros Hf. split; intros Hk.
  - apply setup_unknown; [assumption | now apply select_peri_base_unknown].
  - destruct (select_peri_base_known hdr _ Hk) as [b Hb].
    destruct (Z.eq_dec (mapper_answer hdr env s b) MAP_FAILED) as [Hm | Hm].
    + rewrite (setup_map_failed hdr env s b Hf Hb Hm). simpl. eauto.
    + rewrite (setup_map_ok hdr env s b Hf Hb Hm). simpl. eauto.
Qed.

(** C4. Called unconfigured, [setup_microsleep_hard] asks the resolver; on
    an answer outside the generations 0..5 it returns [-ENOPIVER], having
    logged the resolver call only (no mapper call, globals untouched); on an
    answer inside 0..5 the next thing it does is call the mapper. *)
Theorem setup_unsupported_platform hdr env s :
  config_flag s = 0 ->
  (~ known_generation (next_pi_version env s) ->
     setup_microsleep_hard hdr env s = (- ENOPIVER hdr, after_resolver env s)
     /\ mapper_calls (log (after_resolver env s)) = mapper_calls (log s))
  /\ (known_generation (next_pi_version env s) ->
     exists a p,
       log (snd (setup_microsleep_hard hdr env s))
       = EvMapPeripheral a p :: EvGetPiVersion (next_pi_version env s) :: log s).
Proof.
  intros Hf. destruct (setup_unconfigured_log hdr env s Hf) as [Hu Hk].
  split; [| exact Hk].
  intros Hn. split; [now apply Hu | reflexivity].
Qed.

Lemma setup_unsupported_platform_witness :
  config_flag initial_state = 0
  /\ ((~ known_generation (next_pi_version env_unknown_board initial_state) ->
        setup_microsleep_hard sample_headers env_unknown_board initial_state
        = (- ENOPIVER sample_headers, after_resolver env_unknown_board initial_state)
        /\ mapper_calls (log (after_resolver env_unknown_board initial_state))
           = mapper_calls (log initial_state))
      /\ (known_generation (next_pi_version env_unknown_board initial_state) ->
        exists a p,
          log (snd (setup_microsleep_hard sample_headers env_unknown_board initial_state))
          = EvMapPeripheral a p
              :: EvGetPiVersion (next_pi_version env_unknown_board initial_state)
              :: log initial_state)).
Proof.
  split; [reflexivity |].
  apply (setup_unsupported_platform sample_headers env_unknown_board initial_state).
  reflexivity.
Defined.

(** C5. When the mapper answers [MAP_FAILED], [setup_microsleep_hard]
    returns [(int) MAP_FAILED] with [config_flag] still 0, and the next call
    goes through the sequence again: it asks the resolver once more and,
    the generation being known, calls the mapper once more. *)
Theorem setup_mapping_failure_retries hdr env s b :
  config_flag s = 0 ->
  select_peri_base hdr (next_pi_version env s) = Some b ->
  mapper_answer hdr env s b = MAP_FAILED ->
  fst (setup_microsleep_hard hdr env s) = wrap_int MAP_FAILED
  /\ config_flag (snd (setup_microsleep_hard hdr env s)) = 0
  /\ resolver_calls (log (setup_times hdr env 2 s))
     = S (resolver_calls (log (setup_times hdr env 1 s)))
  /\ (known_generation (next_pi_version env (setup_times hdr env 1 s)) ->
      mapper_calls (log (setup_times hdr env 2 s))
      = S (mapper_calls (log (setup_times hdr env 1 s)))).
Proof.
  intros Hf Hb Hm. simpl setup_times.
  rewrite (setup_map_failed hdr env s b Hf Hb Hm). simpl fst. simpl snd.
  set (s' := set_sys_timer_virt_addr MAP_FAILED _).
  assert (Hf' : config_flag s' = 0) by exact Hf.
  split; [reflexivity |]. split; [exact Hf' |].
  destruct (setup_unconfigured_log hdr env s' Hf') as [Hu Hk].
  split.
  - destruct (Z_le_dec 0 (next_pi_version env s')) as [H0 | H0];
      [destruct (Z_le_dec (next_pi_version env s') 5) as [H5 | H5] |].
    + destruct (Hk (conj H0 H5)) as (a & p & Hlog). rewrite Hlog. reflexivity.
    + rewrite Hu by (unfold known_generation; lia). reflexivity.
    + rewrite Hu by (unfold known_generation; lia). reflexivity.
  - intros Hkn. destruct (Hk Hkn) as (a & p & Hlog). rewrite Hlog. reflexivity.
Qed.

Lemma setup_mapping_failure_retries_witness :
  config_flag initial_state = 0
  /\ select_peri_base sample_headers (next_pi_version env_map_fails_once initial_state)
     = Some 0x3F000000
  /\ mapper_answer sample_headers env_map_fails_once initial_state 0x3F000000 = MAP_FAILED
  /\ fst (setup_microsleep_hard sample_headers env_map_fails_once initial_state)
     = wrap_int MAP_FAILED
  /\ config_flag (snd (setup_microsleep_hard sample_headers env_map_fails_once initial_state)) = 0
  /\ resolver_calls (log (setup_times sample_headers env_map_fails_once 2 initial_state))
     = S (resolver_calls (log (setup_times sample_headers env_map_fails_once 1 initial_state)))
  /\ (known_generation
        (next_pi_version env_map_fails_once
           (setup_times sample_headers env_map_fails_once 1 initial_state)) ->
      mapper_calls (log (setup_times sample_headers env_map_fails_once 2 initial_state))
      = S (mapper_calls (log (setup_times sample_headers env_map_fails_once 1 initial_state)))).
Proof.
  split; [reflexivity |]. split; [reflexivity |]. split; [reflexivity |].
  apply (setup_mapping_failure_retries sample_headers env_map_fails_once
           initial_state 0x3F000000); reflexivity.
Defined.

(** C10. When the mapper answers [MAP_FAILED], the global
    [sys_timer_virt_addr] holds [MAP_FAILED] on return, while
    [sys_timer_reg] and [config_flag] have the values they had before the
    call. *)
Theorem setup_mapping_failure_globals hdr env s b :
  config_flag s = 0 ->
  select_peri_base hdr (next_pi_version env s) = Some b ->
  mapper_answer hdr env s b = MAP_FAILED ->
  sys_timer_virt_addr (snd (setup_microsleep_hard hdr env s)) = MAP_FAILED
  /\ sys_timer_reg (snd (setup_microsleep_hard hdr env s)) = sys_timer_reg s
  /\ config_flag (snd (setup_microsleep_hard hdr env s)) = config_flag s.
Proof.
  intros Hf Hb Hm.
  rewrite (setup_map_failed hdr env s b Hf Hb Hm). simpl. auto.
Qed.

Lemma setup_mapping_failure_globals_witness :
  config_flag initial_state = 0
  /\ select_peri_base sample_headers (next_pi_version env_map_fails_once initial_state)
     = Some 0x3F000000
  /\ mapper_answer sample_headers env_map_fails_once initial_state 0x3F000000 = MAP_FAILED
  /\ sys_timer_virt_addr (snd (setup_microsleep_hard sample_headers env_map_fails_once initial_state))
     = MAP_FAILED
  /\ sys_timer_reg (snd (setup_microsleep_hard sample_headers env_map_fails_once initial_state))
     = sys_timer_reg initial_state
  /\ config_flag (snd (setup_microsleep_hard sample_headers env_map_fails_once initial_state))
     = config_flag initial_state.
Proof.
  split; [reflexivity |]. split; [reflexivity |]. split; [reflexivity |].
  apply (setup_mapping_failure_globals sample_headers env_map_fails_once
           initial_state 0x3F000000); reflexivity.
Defined.

(** ** The address handed to the mapper *)







(** ** Idempotence of the initializer *)

(** The three ways through an unconfigured call. *)
Lemma setup_cases hdr env s :
  config_flag s = 0 ->
  setup_microsleep_hard hdr env s = (- ENOPIVER hdr, after_resolver env s)
  \/ (exists b,
        setup_microsleep_hard hdr env s
        = (-1, set_sys_timer_virt_addr MAP_FAILED
                 (push (EvMapPeripheral (timer_phys_addr hdr b) MAP_FAILED)
                       (after_resolver env s))))
  \/ (exists b,
        mapper_answer hdr env s b <> MAP_FAILED
        /\ setup_microsleep_hard hdr env s
           = (0, mkState (mapper_answer hdr env s b) 1 (mapper_answer hdr env s b)
                   (EvMapPeripheral (timer_phys_addr hdr b) (mapper_answer hdr env s b)
                      :: EvGetPiVersion (next_pi_version env s) :: log s))).
Proof.
  intros Hf.
  destruct (select_peri_base hdr (next_pi_version env s)) as [b |] eqn:Hsel.
  - destruct (Z.eq_dec (mapper_answer hdr env s b) MAP_FAILED) as [Hm | Hm].
    + right; left. exists b. now apply setup_map_failed.
    + right; right. exists b. split; [assumption | now apply setup_map_ok].
  - left. now apply setup_unknown.
Qed.

(** Splits a goal along the three ways, rewriting the call away. *)
Ltac setup_paths hdr env s Hf :=
  let E := fresh "E" in
  let b := fresh "b" in
  let Hm := fresh "Hm" in
  destruct (setup_cases hdr env s Hf) as [E | [[b E] | [b [Hm E]]]];
  rewrite E in *; simpl in *.

Section Idempotence.

Variable hdr : headers.
Variable env : environment.

(** A call that leaves the flag unset made no mapping. *)
Lemma setup_failed_no_mapping s :
  config_flag (snd (setup_microsleep_hard hdr env s)) = 0 ->
  mappings_made (log (snd (setup_microsleep_hard hdr env s))) = mappings_made (log s).
Proof.
  intros H.
  destruct (Z.eq_dec (config_flag s) 0) as [Hf | Hf].
  - setup_paths hdr env s Hf.
    + reflexivity.
    + rewrite mappings_made_failed. reflexivity.
    + discriminate.
  - rewrite (setup_configured hdr env s Hf). reflexivity.
Qed.

(** A call that sets the flag made exactly one. *)
Lemma setup_success_one_mapping s :
  config_flag s = 0 ->
  config_flag (snd (setup_microsleep_hard hdr env s)) <> 0 ->
  mappings_made (log (snd (setup_microsleep_hard hdr env s))) = S (mappings_made (log s)).
Proof.
  intros Hf H. setup_paths hdr env s Hf.
  - contradiction.
  - contradiction.
  - rewrite mappings_made_ok by assumption. reflexivity.
Qed.

(** and called the mapper exactly once. *)
Lemma setup_success_one_call s :
  config_flag s = 0 ->
  config_flag (snd (setup_microsleep_hard hdr env s)) <> 0 ->
  mapper_calls (log (snd (setup_microsleep_hard hdr env s))) = S (mapper_calls (log s)).
Proof.
  intros Hf H. setup_paths hdr env s Hf.
  - contradiction.
  - contradiction.
  - reflexivity.
Qed.

Lemma setup_times_configured n s :
  config_flag s <> 0 -> setup_times hdr env n s = s.
Proof.
  intros Hf. induction n as [| n IH]; simpl.
  - reflexivity.
  - rewrite (setup_configured hdr env s Hf). exact IH.
Qed.

Lemma setup_times_add a b s :
  setup_times hdr env (a + b) s = setup_times hdr env b (setup_times hdr env a s).
Proof.
  revert s. induction a as [| a IH]; intros s; simpl.
  - reflexivity.
  - apply IH.
Qed.

Lemma setup_times_last k s :
  setup_times hdr env (S k) s
  = snd (setup_microsleep_hard hdr env (setup_times hdr env k s)).
Proof.
  replace (S k) with (k + 1)%nat by lia. rewrite setup_times_add. reflexivity.
Qed.

(** As long as the flag is unset, no mapping has been made. *)
Lemma setup_times_unconfigured k s :
  config_flag (setup_times hdr env k s) = 0 ->
  mappings_made (log (setup_times hdr env k s)) = mappings_made (log s).
Proof.
  revert s. induction k as [| k IH]; intros s H; simpl in *.
  - reflexivity.
  - destruct (Z.eq_dec (config_flag (snd (setup_microsleep_hard hdr env s))) 0) as [Hf | Hf].
    + rewrite IH by assumption. now apply setup_failed_no_mapping.
    + rewrite setup_times_configured in H by assumption. contradiction.
Qed.

End Idempotence.

(** C3. Let the call number [k+1] be the first after which [config_flag]
    is set.  After [k+1+m] calls, whatever [m], exactly one mapping has been
    made since the start (and, when the first call is the successful one,
    the mapper has been called exactly once), the state (globals and log)
    is the one the call number [k+1] left, and one more call returns 0 and
    leaves that state as it is: no resolver query, no mapper call, no global
    assigned. *)
Theorem setup_idempotent hdr env s k m :
  config_flag (setup_times hdr env k s) = 0 ->
  config_flag (setup_times hdr env (S k) s) <> 0 ->
  mappings_made (log (setup_times hdr env (S k + m) s)) = S (mappings_made (log s))
  /\ (k = O ->
      mapper_calls (log (setup_times hdr env (S k + m) s)) = S (mapper_calls (log s)))
  /\ setup_times hdr env (S k + m) s = setup_times hdr env (S k) s
  /\ setup_microsleep_hard hdr env (setup_times hdr env (S k + m) s)
     = (0, setup_times hdr env (S k) s).
Proof.
  intros H0 H1.
  assert (Hm : setup_times hdr env (S k + m) s = setup_times hdr env (S k) s)
    by (rewrite setup_times_add; now apply setup_times_configured).
  rewrite Hm.
  split; [| split; [| split; [reflexivity | now apply setup_configured]]].
  - rewrite setup_times_last in *.
    rewrite setup_success_one_mapping by assumption.
    now rewrite setup_times_unconfigured.
  - intros ->. simpl in *. now apply setup_success_one_call.
Qed.

Lemma setup_idempotent_witness :
  config_flag (setup_times sample_headers env_map_fails_once 1 initial_state) = 0
  /\ config_flag (setup_times sample_headers env_map_fails_once 2 initial_state) <> 0
  /\ mappings_made (log (setup_times sample_headers env_map_fails_once (2 + 3) initial_state))
     = S (mappings_made (log initial_state))
  /\ (1%nat = O ->
      mapper_calls (log (setup_times sample_headers env_map_fails_once (2 + 3) initial_state))
      = S (mapper_calls (log initial_state)))
  /\ setup_times sample_headers env_map_fails_once (2 + 3) initial_state
     = setup_times sample_headers env_map_fails_once 2 initial_state
  /\ setup_microsleep_hard sample_headers env_map_fails_once
       (setup_times sample_headers env_map_fails_once (2 + 3) initial_state)
     = (0, setup_times sample_headers env_map_fails_once 2 initial_state).
Proof.
  split; [reflexivity |]. split; [discriminate |].
  apply (setup_idempotent sample_headers env_map_fails_once initial_state 1 3).
  - reflexivity.
  - discriminate.
Defined.

(** ** The spin loop *)
Section Spin.

Variable hdr : headers.
Variable env : environment.

Lemma load_clo_mapped s :
  mapped (sys_timer_reg s) = true ->
  load_reg env clo s
  = Some (clo_at env (reg_accesses (log s)),
          push (EvRegRead clo (clo_at env (reg_accesses (log s)))) s).
Proof. intros H. unfold load_reg. rewrite H. reflexivity. Qed.

Lemma load_clo_unmapped s :
  mapped (sys_timer_reg s) = false -> load_reg env clo s = None.
Proof. intros H. unfold load_reg. rewrite H. reflexivity. Qed.

Lemma polled_globals j s :
  sys_timer_virt_addr (polled env j s) = sys_timer_virt_addr s
  /\ config_flag (polled env j s) = config_flag s
  /\ sys_timer_reg (polled env j s) = sys_timer_reg s.
Proof.
  revert s. induction j as [| j IH]; intros s; simpl.
  - auto.
  - destruct (IH (push (EvRegRead clo (clo_at env (reg_accesses (log s)))) s))
      as (H1 & H2 & H3).
    rewrite H1, H2, H3. auto.
Qed.

Lemma polled_accesses j s :
  reg_accesses (log (polled env j s)) = (reg_accesses (log s) + j)%nat.
Proof.
  revert s. induction j as [| j IH]; intros s; simpl.
  - lia.
  - rewrite IH. cbn [log push]. rewrite reg_accesses_read. lia.
Qed.

(** The loop runs out of fuel while every value read is below the target. *)
Lemma spin_below fuel timout s :
  mapped (sys_timer_reg s) = true ->
  (forall i, (i < fuel)%nat -> clo_at env (reg_accesses (log s) + i) < timout) ->
  spin env fuel timout s = OutOfFuel (polled env fuel s).
Proof.
  revert s. induction fuel as [| fuel IH]; intros s Hm Hlt; simpl.
  - reflexivity.
  - rewrite (load_clo_mapped s Hm).
    pose proof (Hlt O ltac:(lia)) as H0. rewrite Nat.add_0_r in H0.
    apply Z.ltb_lt in H0. rewrite H0.
    apply IH.
    + exact Hm.
    + intros i Hi. cbn [log push]. rewrite reg_accesses_read.
      replace (S (reg_accesses (log s)) + i)%nat
        with (reg_accesses (log s) + S i)%nat by lia.
      apply Hlt. lia.
Qed.

(** The loop leaves at the first value read that is not below the target,
    however much fuel is left. *)
Lemma spin_exits j extra timout s :
  mapped (sys_timer_reg s) = true ->
  (forall i, (i < j)%nat -> clo_at env (reg_accesses (log s) + i) < timout) ->
  timout <= clo_at env (reg_accesses (log s) + j) ->
  spin env (S j + extra) timout s = Exited (polled env (S j) s).
Proof.
  revert s. induction j as [| j IH]; intros s Hm Hlt Hge.
  - simpl. rewrite (load_clo_mapped s Hm). rewrite Nat.add_0_r in Hge.
    apply Z.ltb_ge in Hge. rewrite Hge. reflexivity.
  - change (S (S j) + extra)%nat with (S (S j + extra)).
    cbn [spin]. rewrite (load_clo_mapped s Hm).
    pose proof (Hlt O ltac:(lia)) as H0. rewrite Nat.add_0_r in H0.
    apply Z.ltb_lt in H0. rewrite H0.
    rewrite IH.
    + reflexivity.
    + exact Hm.
    + intros i Hi. cbn [log push]. rewrite reg_accesses_read.
      replace (S (reg_accesses (log s)) + i)%nat
        with (reg_accesses (log s) + S i)%nat by lia.
      apply Hlt. lia.
    + cbn [log push]. rewrite reg_accesses_read.
      replace (S (reg_accesses (log s)) + j)%nat
        with (reg_accesses (log s) + S j)%nat by lia.
      exact Hge.
Qed.

(** If some later read reaches the target, enough fuel makes the loop
    leave. *)
Lemma spin_reaches j timout s :
  mapped (sys_timer_reg s) = true ->
  timout <= clo_at env (reg_accesses (log s) + j) ->
  exists k, (k <= j)%nat /\
    forall extra, spin env (S k + extra) timout s = Exited (polled env (S k) s).
Proof.
  revert s. induction j as [| j IH]; intros s Hm Hge.
  - exists O. split; [lia |]. intros extra. apply spin_exits; [assumption | lia | assumption].
  - destruct (Z_lt_ge_dec (clo_at env (reg_accesses (log s))) timout) as [Hlt | Hnow].
    + destruct (IH (push (EvRegRead clo (clo_at env (reg_accesses (log s)))) s)) as (k & Hk & Hs).
      * exact Hm.
      * cbn [log push]. rewrite reg_accesses_read.
        replace (S (reg_accesses (log s)) + j)%nat
          with (reg_accesses (log s) + S j)%nat by lia.
        exact Hge.
      * exists (S k). split; [lia |]. intros extra.
        change (S (S k) + extra)%nat with (S (S k + extra)).
        cbn [spin]. rewrite (load_clo_mapped s Hm).
        apply Z.ltb_lt in Hlt. rewrite Hlt. apply Hs.
    + exists O. split; [lia |]. intros extra.
      apply spin_exits; [assumption | lia |]. rewrite Nat.add_0_r. lia.
Qed.

(** What is known when the loop has left. *)
Lemma spin_exited fuel timout s s' :
  spin env fuel timout s = Exited s' ->
  exists j,
    s' = polled env (S j) s
    /\ (forall i, (i < j)%nat -> clo_at env (reg_accesses (log s) + i) < timout)
    /\ timout <= clo_at env (reg_accesses (log s) + j).
Proof.
  revert s. induction fuel as [| fuel IH]; intros s H; simpl in H.
  - discriminate.
  - destruct (mapped (sys_timer_reg s)) eqn:Hm.
    + rewrite (load_clo_mapped s Hm) in H.
      destruct (Z.ltb_spec (clo_at env (reg_accesses (log s))) timout) as [Hlt | Hge].
      * destruct (IH _ H) as (j & Hs & Hbelow & Hreach).
        cbn [log push] in Hbelow, Hreach. rewrite reg_accesses_read in Hbelow, Hreach.
        exists (S j). split; [exact Hs |]. split.
        -- intros i Hi. destruct i as [| i].
           ++ rewrite Nat.add_0_r. exact Hlt.
           ++ replace (reg_accesses (log s) + S i)%nat
                with (S (reg_accesses (log s)) + i)%nat by lia.
              apply Hbelow. lia.
        -- replace (reg_accesses (log s) + S j)%nat
             with (S (reg_accesses (log s)) + j)%nat by lia.
           exact Hreach.
      * injection H as <-. exists O. split; [reflexivity |]. split.
        -- intros i Hi. lia.
        -- rewrite Nat.add_0_r. exact Hge.
    + rewrite (load_clo_unmapped s Hm) in H. discriminate.
Qed.

End Spin.

(** ** The free-running counter *)

Lemma nondecreasing_le (f : nat -> Z) :
  (forall n, f n <= f (S n)) -> forall n m, (n <= m)%nat -> f n <= f m.
Proof.
  intros Hstep n m Hnm. induction Hnm as [| m Hnm IH].
  - lia.
  - specialize (Hstep m). lia.
Qed.

(** A sequence that starts below [B] and is at or above it [d] steps later
    has a step on which it crosses. *)
Lemma first_crossing (f : nat -> Z) (B : Z) (d : nat) :
  f O < B -> B <= f d -> exists j, (j < d)%nat /\ f j < B <= f (S j).
Proof.
  induction d as [| d IH]; intros H0 Hd.
  - lia.
  - destruct (Z_lt_ge_dec (f d) B) as [Hlt | Hge].
    + exists d. split; [lia | lia].
    + destruct IH as (j & Hj & Hc); [assumption | lia |].
      exists j. split; [lia | exact Hc].
Qed.

Lemma clo_at_counter env n : clo_at env n = counter env n mod UINT32_MOD.
Proof. reflexivity. Qed.

Lemma clo_at_range env n : 0 <= clo_at env n < UINT32_MOD.
Proof. rewrite clo_at_counter. apply Z.mod_pos_bound. reflexivity. Qed.

(** A counter that never goes back, never stops for good and never gains
    more than [gap] ticks between two accesses shows, at some access from
    the n-th on, a [clo] of at least [t], provided a jump of [gap] cannot
    carry it from below [t] past the end of the 32-bit range. *)
Lemma counter_reaches env gap t n :
  (forall i, counter env i <= counter env (S i) <= counter env i + gap) ->
  (forall b, exists i, b <= counter env i) ->
  0 <= t -> t + gap <= UINT32_MOD ->
  exists j, t <= clo_at env (n + j).
Proof.
  intros Hstep Hunb Ht Hgap.
  set (M := UINT32_MOD) in *.
  assert (HM : 0 < M) by reflexivity.
  set (c := counter env n).
  destruct (Z_lt_ge_dec (clo_at env n) t) as [Hlt | Hge].
  2:{ exists O. rewrite Nat.add_0_r. lia. }
  set (B := M * (c / M) + t).
  assert (HcB : c < B).
  { unfold B. rewrite clo_at_counter in Hlt. fold M c in Hlt.
    pose proof (Z.div_mod c M ltac:(lia)). lia. }
  destruct (Hunb B) as [m Hm].
  assert (Hnm : (n <= m)%nat).
  { destruct (Nat.le_gt_cases n m) as [H | H]; [exact H |].
    assert (counter env m <= counter env n).
    { apply (nondecreasing_le (counter env)); [intros i; apply Hstep | lia]. }
    fold c in H0. lia. }
  destruct (first_crossing (fun i => counter env (n + i)) B (m - n)) as (j & Hj & Hlo & Hhi).
  - rewrite Nat.add_0_r. exact HcB.
  - replace (n + (m - n))%nat with m by lia. exact Hm.
  - exists (S j). rewrite clo_at_counter. fold M.
    replace (n + S j)%nat with (S (n + j)) in Hhi by lia.
    replace (n + S j)%nat with (S (n + j)) by lia.
    pose proof (Hstep (n + j)%nat) as Hs.
    set (x := counter env (S (n + j))) in *.
    assert (Hx : x mod M = x - M * (c / M)).
    { symmetry. apply (Z.mod_unique_pos x M (c / M)); unfold B in *; lia. }
    rewrite Hx. unfold B in Hhi. lia.
Qed.

(** ** The sample counters *)

Lemma sample_counter_step version ptr t0 i :
  counter (sample_env version ptr t0) i
  <= counter (sample_env version ptr t0) (S i)
  <= counter (sample_env version ptr t0) i + 1.
Proof. simpl counter. lia. Qed.

Lemma sample_counter_unbounded version ptr t0 b :
  exists i, b <= counter (sample_env version ptr t0) i.
Proof. exists (Z.to_nat (b - t0)). simpl counter. lia. Qed.

(** ** [microsleep_hard] *)
Section Microsleep.

Variable hdr : headers.
Variable env : environment.

(** Configured, the call is one read of [clo] followed by the loop. *)
Lemma microsleep_hard_configured fuel usec s :
  configured s ->
  microsleep_hard hdr env fuel usec s
  = match spin env fuel (wrap_uint32 (clo_at env (reg_accesses (log s)) + usec))
                (polled env 1 s) with
    | Exited s3 => Returned 0 s3
    | LoopFault s3 => Fault s3
    | OutOfFuel s3 => Spinning s3
    end.
Proof.
  intros [Hf Hm]. unfold microsleep_hard.
  destruct (Z.eqb_spec (config_flag s) 0); [contradiction |].
  rewrite (load_clo_mapped env s Hm). reflexivity.
Qed.

(** The only value the function returns is 0. *)
Lemma microsleep_hard_returns_zero fuel usec s r s' :
  microsleep_hard hdr env fuel usec s = Returned r s' -> r = 0.
Proof.
  unfold microsleep_hard.
  destruct (load_reg env clo _) as [[v s2] |]; [| discriminate].
  destruct (spin env fuel _ s2); intros H; try discriminate.
  now injection H as <- _.
Qed.

End Microsleep.

(** C8. In a configured state, let the counter never go back, never stop
    for good and gain at most [gap] ticks between two accesses, with
    [usec + gap <= 2^32].  If [clo] at the start plus [usec] reaches or
    passes [2^32], the loop terminates: there is an amount of fuel from
    which on [microsleep_hard] returns 0, in one and the same state. *)
Theorem microsleep_terminates_across_wrap hdr env s usec gap :
  configured s ->
  (forall i, counter env i <= counter env (S i) <= counter env i + gap) ->
  (forall b, exists i, b <= counter env i) ->
  0 <= usec ->
  usec + gap <= UINT32_MOD ->
  UINT32_MOD <= clo_at env (reg_accesses (log s)) + usec ->
  exists fuel s', forall extra,
    microsleep_hard hdr env (fuel + extra) usec s = Returned 0 s'.
Proof.
  intros Hc Hstep Hunb Hu Hgap Hwrap.
  pose proof (clo_at_range env (reg_accesses (log s))) as Hr.
  assert (Hg : 0 <= gap) by (specialize (Hstep O); lia).
  set (start := clo_at env (reg_accesses (log s))) in *.
  assert (Ht : wrap_uint32 (start + usec) = start + usec - UINT32_MOD).
  { unfold wrap_uint32. symmetry.
    apply (Z.mod_unique_pos (start + usec) UINT32_MOD 1); unfold UINT32_MOD in *; lia. }
  assert (Hm : mapped (sys_timer_reg (polled env 1 s)) = true).
  { destruct (polled_globals env 1 s) as (_ & _ & E). rewrite E. apply Hc. }
  destruct (counter_reaches env gap (start + usec - UINT32_MOD)
              (reg_accesses (log (polled env 1 s))) Hstep Hunb) as [j Hj];
    [lia | lia |].
  destruct (spin_reaches env j _ _ Hm Hj) as (k & _ & Hk).
  exists (S k), (polled env (S k) (polled env 1 s)). intros extra.
  rewrite (microsleep_hard_configured hdr env _ usec s Hc).
  fold start. rewrite Ht, Hk. reflexivity.
Qed.

Lemma microsleep_terminates_across_wrap_witness :
  configured (pi3_ready t_near_wrap)
  /\ (forall i, counter (env_pi3 t_near_wrap) i
                <= counter (env_pi3 t_near_wrap) (S i)
                <= counter (env_pi3 t_near_wrap) i + 1)
  /\ (forall b, exists i, b <= counter (env_pi3 t_near_wrap) i)
  /\ 0 <= 10
  /\ 10 + 1 <= UINT32_MOD
  /\ UINT32_MOD
     <= clo_at (env_pi3 t_near_wrap) (reg_accesses (log (pi3_ready t_near_wrap))) + 10
  /\ exists fuel s', forall extra,
       microsleep_hard sample_headers (env_pi3 t_near_wrap) (fuel + extra) 10
         (pi3_ready t_near_wrap)
       = Returned 0 s'.
Proof.
  split; [split; [discriminate | reflexivity] |].
  split; [intros i; apply sample_counter_step |].
  split; [intros b; apply sample_counter_unbounded |].
  split; [lia |].
  split; [discriminate |].
  split; [discriminate |].
  apply (microsleep_terminates_across_wrap sample_headers (env_pi3 t_near_wrap)
           (pi3_ready t_near_wrap) 10 1).
  - split; [discriminate | reflexivity].
  - intros i; apply sample_counter_step.
  - intros b; apply sample_counter_unbounded.
  - lia.
  - discriminate.
  - discriminate.
Defined.

(** ** Frame: what a call adds to the log *)

Lemma extends_refl P s : extends P s s.
Proof. exists []. split; [reflexivity | constructor]. Qed.

Lemma extends_trans P s1 s2 s3 : extends P s1 s2 -> extends P s2 s3 -> extends P s1 s3.
Proof.
  intros (n1 & E1 & F1) (n2 & E2 & F2). exists (n2 ++ n1). split.
  - rewrite E2, E1. apply app_assoc.
  - apply Forall_app. split; assumption.
Qed.

Lemma extends_push (P : event -> Prop) e s : P e -> extends P s (push e s).
Proof. intros H. exists [e]. split; [reflexivity | repeat constructor; exact H]. Qed.

Lemma setup_extends hdr env s :
  extends reads_only_clo s (snd (setup_microsleep_hard hdr env s)).
Proof.
  destruct (Z.eq_dec (config_flag s) 0) as [Hf | Hf].
  - setup_paths hdr env s Hf.
    + apply extends_push. exact I.
    + eexists [_; _]. split; [reflexivity | repeat constructor].
    + eexists [_; _]. split; [reflexivity | repeat constructor].
  - rewrite (setup_configured hdr env s Hf). apply extends_refl.
Qed.

Lemma load_clo_extends env s v s' :
  load_reg env clo s = Some (v, s') -> extends reads_only_clo s s'.
Proof.
  unfold load_reg. destruct (mapped (sys_timer_reg s)); [| discriminate].
  intros H. injection H as _ <-. apply extends_push. reflexivity.
Qed.

Lemma spin_extends env fuel timout s :
  extends reads_only_clo s (loop_state (spin env fuel timout s)).
Proof.
  revert s. induction fuel as [| fuel IH]; intros s; simpl.
  - apply extends_refl.
  - destruct (load_reg env clo s) as [[v s'] |] eqn:E.
    + pose proof (load_clo_extends env s v s' E) as Hx.
      destruct (v <? timout).
      * eapply extends_trans; [exact Hx | apply IH].
      * exact Hx.
    + apply extends_refl.
Qed.

(** C9. Whatever the state, the delay and the fuel, the events a call of
    [microsleep_hard] adds to the log contain no register write (so none to
    [c0] or [c2]) and no register read other than of [clo]. *)
Theorem microsleep_reads_only_clo hdr env fuel usec s :
  exists new,
    log (final_state (microsleep_hard hdr env fuel usec s)) = new ++ log s
    /\ Forall reads_only_clo new
    /\ (forall r v, ~ In (EvRegWrite r v) new)
    /\ (forall r v, In (EvRegRead r v) new -> r = clo).
Proof.
  assert (H : extends reads_only_clo s (final_state (microsleep_hard hdr env fuel usec s))).
  { unfold microsleep_hard.
    set (s1 := if config_flag s =? 0 then _ else s).
    assert (H1 : extends reads_only_clo s s1).
    { unfold s1. destruct (config_flag s =? 0); [apply setup_extends | apply extends_refl]. }
    destruct (load_reg env clo s1) as [[v s2] |] eqn:E; [| exact H1].
    pose proof (load_clo_extends env s1 v s2 E) as H2.
    pose proof (spin_extends env fuel (wrap_uint32 (v + usec)) s2) as H3.
    apply (extends_trans _ _ s1); [exact H1 |].
    apply (extends_trans _ _ s2); [exact H2 |].
    destruct (spin env fuel (wrap_uint32 (v + usec)) s2); exact H3. }
  destruct H as (new & E & F). exists new.
  split; [exact E |]. split; [exact F |].
  rewrite Forall_forall in F. split.
  - intros r v Hin. exact (F _ Hin).
  - intros r v Hin. exact (F _ Hin).
Qed.

(** ** Reachable states *)

Lemma reg_offset_inj r1 r2 : reg_offset r1 = reg_offset r2 -> r1 = r2.
Proof. destruct r1, r2; simpl; intros H; solve [reflexivity | discriminate H]. Qed.

Lemma same_globals_refl s : same_globals s s.
Proof. unfold same_globals. auto. Qed.

Lemma same_globals_trans s1 s2 s3 :
  same_globals s1 s2 -> same_globals s2 s3 -> same_globals s1 s3.
Proof.
  unfold same_globals. intros (A1 & B1 & C1) (A2 & B2 & C2).
  rewrite A2, B2, C2. auto.
Qed.

Lemma load_reg_same_globals env r s v s' :
  load_reg env r s = Some (v, s') -> same_globals s s'.
Proof.
  unfold load_reg. destruct (mapped (sys_timer_reg s)); [| discriminate].
  intros H. injection H as _ <-. unfold same_globals. simpl. auto.
Qed.

Lemma spin_same_globals env fuel timout s :
  same_globals s (loop_state (spin env fuel timout s)).
Proof.
  revert s. induction fuel as [| fuel IH]; intros s; simpl.
  - apply same_globals_refl.
  - destruct (load_reg env clo s) as [[v s'] |] eqn:E.
    + pose proof (load_reg_same_globals env clo s v s' E) as Hx.
      destruct (v <? timout).
      * eapply same_globals_trans; [exact Hx | apply IH].
      * exact Hx.
    + apply same_globals_refl.
Qed.

Lemma well_formed_same_globals s s' :
  same_globals s s' -> well_formed s -> well_formed s'.
Proof.
  unfold same_globals, well_formed. intros (A & B & C) [H0 H1].
  rewrite A, B, C. auto.
Qed.

Lemma well_formed_initial : well_formed initial_state.
Proof.
  split; [reflexivity |]. intros H. exfalso. apply H. reflexivity.
Qed.

Lemma setup_well_formed hdr env s :
  well_formed s -> well_formed (snd (setup_microsleep_hard hdr env s)).
Proof.
  intros Hw. destruct (Z.eq_dec (config_flag s) 0) as [Hf | Hf].
  - destruct Hw as [H0 _]. specialize (H0 Hf).
    setup_paths hdr env s Hf; split; simpl; intros Hc; try contradiction; auto.
    discriminate Hc.
  - rewrite (setup_configured hdr env s Hf). exact Hw.
Qed.

(** The globals after [microsleep_hard] are those the lazy setup left. *)
Lemma microsleep_hard_globals hdr env fuel usec s :
  same_globals
    (if config_flag s =? 0 then snd (setup_microsleep_hard hdr env s) else s)
    (final_state (microsleep_hard hdr env fuel usec s)).
Proof.
  unfold microsleep_hard.
  set (s1 := if config_flag s =? 0 then _ else s).
  destruct (load_reg env clo s1) as [[v s2] |] eqn:E; [| apply same_globals_refl].
  pose proof (load_reg_same_globals env clo s1 v s2 E) as H2.
  pose proof (spin_same_globals env fuel (wrap_uint32 (v + usec)) s2) as H3.
  apply (same_globals_trans _ s2); [exact H2 |].
  destruct (spin env fuel (wrap_uint32 (v + usec)) s2); exact H3.
Qed.

Lemma microsleep_hard_well_formed hdr env fuel usec s :
  well_formed s -> well_formed (final_state (microsleep_hard hdr env fuel usec s)).
Proof.
  intros Hw.
  apply (well_formed_same_globals _ _ (microsleep_hard_globals hdr env fuel usec s)).
  destruct (config_flag s =? 0); [now apply setup_well_formed | exact Hw].
Qed.

(** ** Lazy initialisation *)

(** A call of [setup_microsleep_hard] that leaves the flag unset leaves the
    register pointer as it was. *)
Lemma setup_failed_keeps_reg hdr env s :
  config_flag s = 0 ->
  config_flag (snd (setup_microsleep_hard hdr env s)) = 0 ->
  sys_timer_reg (snd (setup_microsleep_hard hdr env s)) = sys_timer_reg s.
Proof.
  intros Hf H.
  setup_paths hdr env s Hf; [reflexivity | reflexivity | discriminate].
Qed.

(** Unconfigured, with the register pointer still [NULL]: when the lazy
    setup fails, its status is dropped and the read of [clo] that follows
    goes through [NULL]. *)
Lemma microsleep_hard_setup_failed hdr env fuel usec s :
  well_formed s ->
  config_flag s = 0 ->
  config_flag (snd (setup_microsleep_hard hdr env s)) = 0 ->
  microsleep_hard hdr env fuel usec s = Fault (snd (setup_microsleep_hard hdr env s)).
Proof.
  intros [Hn _] Hf H. unfold microsleep_hard. rewrite Hf. simpl.
  rewrite load_clo_unmapped; [reflexivity |].
  rewrite (setup_failed_keeps_reg hdr env s Hf H), (Hn Hf). reflexivity.
Qed.

(** C1. On a board the resolver does not recognise, [setup_microsleep_hard]
    returns [-ENOPIVER], and with a mapper that fails it returns
    [(int) MAP_FAILED]; a first call of [microsleep_hard] in either setting
    returns neither: it goes on to read [clo] through the [NULL] register
    pointer. *)
Theorem microsleep_drops_setup_failure :
  fst (setup_microsleep_hard sample_headers env_unknown_board initial_state)
  = - ENOPIVER sample_headers
  /\ fst (setup_microsleep_hard sample_headers env_map_fails_once initial_state)
     = wrap_int MAP_FAILED
  /\ (forall fuel usec,
        microsleep_hard sample_headers env_unknown_board fuel usec initial_state
        = Fault (snd (setup_microsleep_hard sample_headers env_unknown_board initial_state)))
  /\ (forall fuel usec,
        microsleep_hard sample_headers env_map_fails_once fuel usec initial_state
        = Fault (snd (setup_microsleep_hard sample_headers env_map_fails_once initial_state))).
Proof.
  split; [reflexivity |]. split; [reflexivity |].
  split; intros fuel usec; apply microsleep_hard_setup_failed;
    solve [apply well_formed_initial | reflexivity].
Qed.

(** ** Waiting *)
Section Waiting.

Variable hdr : headers.
Variable env : environment.

(** When the target does not wrap and the counter never goes back, a call
    that returns has seen the counter gain at least [usec] ticks between its
    first and its last read. *)
Lemma microsleep_hard_waits fuel usec s r s' :
  configured s ->
  (forall i, counter env i <= counter env (S i)) ->
  0 <= usec ->
  clo_at env (reg_accesses (log s)) + usec < UINT32_MOD ->
  microsleep_hard hdr env fuel usec s = Returned r s' ->
  counter env (reg_accesses (log s)) + usec
  <= counter env (Nat.pred (reg_accesses (log s'))).
Proof.
  intros Hc Hmono Hu Hfit.
  rewrite (microsleep_hard_configured hdr env fuel usec s Hc).
  destruct (spin env fuel _ (polled env 1 s)) as [s3 | s3 | s3] eqn:E; try discriminate.
  intros H. injection H as _ <-.
  destruct (spin_exited env _ _ _ _ E) as (j & -> & _ & Hreach).
  rewrite !polled_accesses in *.
  set (n0 := reg_accesses (log s)) in *.
  replace (Nat.pred (n0 + 1 + S j)) with (n0 + 1 + j)%nat by lia.
  pose proof (clo_at_range env n0) as Hr0.
  rewrite wrap_uint32_small in Hreach by lia.
  rewrite !clo_at_counter in *.
  assert (Hle : counter env n0 <= counter env (n0 + 1 + j)).
  { apply (nondecreasing_le (counter env)); [exact Hmono | lia]. }
  set (a := counter env n0) in *. set (b := counter env (n0 + 1 + j)) in *.
  set (M := UINT32_MOD) in *. assert (HM : 0 < M) by reflexivity.
  pose proof (Z.div_mod a M ltac:(lia)) as Ha.
  pose proof (Z.div_mod b M ltac:(lia)) as Hb.
  pose proof (Z.mod_pos_bound b M HM) as Hbr.
  assert (Hq : a / M <= b / M) by (apply Z.div_le_mono; lia).
  nia.
Qed.

(** A call that returns has read, last, a value not below the target as
    unsigned numbers: the exit test of the loop and nothing more. *)
Lemma microsleep_hard_exit_value fuel usec s r s' :
  configured s ->
  microsleep_hard hdr env fuel usec s = Returned r s' ->
  wrap_uint32 (clo_at env (reg_accesses (log s)) + usec)
  <= clo_at env (Nat.pred (reg_accesses (log s'))).
Proof.
  intros Hc.
  rewrite (microsleep_hard_configured hdr env fuel usec s Hc).
  destruct (spin env fuel _ (polled env 1 s)) as [s3 | s3 | s3] eqn:E; try discriminate.
  intros H. injection H as _ <-.
  destruct (spin_exited env _ _ _ _ E) as (j & -> & _ & Hreach).
  rewrite !polled_accesses in *.
  replace (Nat.pred (reg_accesses (log s) + 1 + S j))
    with (reg_accesses (log s) + 1 + j)%nat by lia.
  exact Hreach.
Qed.

(** When the target wraps and the second read has not wrapped yet, the
    first evaluation of the loop condition is false: the call returns after
    two reads, however few ticks have passed. *)
Lemma microsleep_hard_early_at_wrap fuel usec s :
  configured s ->
  0 <= usec < UINT32_MOD ->
  UINT32_MOD <= clo_at env (reg_accesses (log s)) + usec ->
  clo_at env (reg_accesses (log s)) <= clo_at env (S (reg_accesses (log s))) ->
  microsleep_hard hdr env (S fuel) usec s = Returned 0 (polled env 2 s).
Proof.
  intros Hc Hu Hwrap Hnext.
  rewrite (microsleep_hard_configured hdr env _ usec s Hc).
  pose proof (clo_at_range env (reg_accesses (log s))) as Hr.
  set (start := clo_at env (reg_accesses (log s))) in *.
  assert (Ht : wrap_uint32 (start + usec) = start + usec - UINT32_MOD).
  { unfold wrap_uint32. symmetry.
    apply (Z.mod_unique_pos (start + usec) UINT32_MOD 1); unfold UINT32_MOD in *; lia. }
  rewrite Ht.
  rewrite (spin_exits env 0 fuel).
  - reflexivity.
  - destruct (polled_globals env 1 s) as (_ & _ & E). rewrite E. apply Hc.
  - intros i Hi. lia.
  - rewrite polled_accesses.
    replace (reg_accesses (log s) + 1 + 0)%nat with (S (reg_accesses (log s))) by lia.
    lia.
Qed.

(** A zero delay returns after two reads when the second read is not below
    the first. *)
Lemma microsleep_hard_zero fuel s :
  configured s ->
  clo_at env (reg_accesses (log s)) <= clo_at env (S (reg_accesses (log s))) ->
  microsleep_hard hdr env (S fuel) 0 s = Returned 0 (polled env 2 s).
Proof.
  intros Hc Hnext.
  rewrite (microsleep_hard_configured hdr env _ 0 s Hc).
  pose proof (clo_at_range env (reg_accesses (log s))) as Hr.
  rewrite Z.add_0_r, wrap_uint32_small by exact Hr.
  rewrite (spin_exits env 0 fuel).
  - reflexivity.
  - destruct (polled_globals env 1 s) as (_ & _ & E). rewrite E. apply Hc.
  - intros i Hi. lia.
  - rewrite polled_accesses.
    replace (reg_accesses (log s) + 1 + 0)%nat with (S (reg_accesses (log s))) by lia.
    exact Hnext.
Qed.

End Waiting.

(** A run away from the wrap: the counter stands at 1000, the delay is 3,
    and the call returns on reading 1003. *)
Example microsleep_three_ticks :
  microsleep_hard sample_headers (env_pi3 1000) 10 3 (pi3_ready 1000)
  = Returned 0
      (push (EvRegRead clo 1003)
         (push (EvRegRead clo 1002)
            (push (EvRegRead clo 1001)
               (push (EvRegRead clo 1000) (pi3_ready 1000))))).
Proof. reflexivity. Qed.

(** C2. On a Pi 3 whose counter stands five ticks before the wrap of [clo]
    and gains one tick per read, [microsleep_hard(10)] returns 0 after two
    reads, the second being the first evaluation of the loop condition:
    the target is [5], the value read is [2^32 - 4], and the counter has
    gained one tick, not ten. *)
Theorem microsleep_returns_early_at_wrap :
  forall fuel,
    microsleep_hard sample_headers (env_pi3 t_near_wrap) (S fuel) 10 (pi3_ready t_near_wrap)
    = Returned 0
        (push (EvRegRead clo (UINT32_MOD - 4))
           (push (EvRegRead clo (UINT32_MOD - 5)) (pi3_ready t_near_wrap)))
    /\ wrap_uint32 (UINT32_MOD - 5 + 10) = 5
    /\ counter (env_pi3 t_near_wrap) 1 = counter (env_pi3 t_near_wrap) 0 + 1.
Proof.
  intros fuel. split; [| split; reflexivity].
  rewrite (microsleep_hard_early_at_wrap sample_headers (env_pi3 t_near_wrap) fuel 10).
  - reflexivity.
  - split; [discriminate | reflexivity].
  - split; [discriminate | reflexivity].
  - discriminate.
  - discriminate.
Qed.

(** C6. On a Pi 3 whose counter stands one tick before the wrap of [clo] and
    gains one tick per read, [microsleep_hard(0)] computes the target
    [2^32 - 1], the value read at the start; the first evaluation of the
    loop condition reads [0] and finds it true, and the call is still in
    its loop after any number of evaluations below [2^32]. *)
Theorem microsleep_zero_spins_a_period fuel :
  Z.of_nat fuel < UINT32_MOD ->
  microsleep_hard sample_headers (env_pi3 t_last) fuel 0 (pi3_ready t_last)
  = Spinning (polled (env_pi3 t_last) (S fuel) (pi3_ready t_last)).
Proof.
  intros Hfuel.
  rewrite (microsleep_hard_configured sample_headers (env_pi3 t_last) fuel 0);
    [| split; [discriminate | reflexivity]].
  rewrite spin_below.
  - reflexivity.
  - reflexivity.
  - intros i Hi.
    change (reg_accesses (log (polled (env_pi3 t_last) 1 (pi3_ready t_last)))) with 1%nat.
    change (wrap_uint32 (clo_at (env_pi3 t_last) (reg_accesses (log (pi3_ready t_last))) + 0))
      with (UINT32_MOD - 1).
    rewrite clo_at_counter. unfold env_pi3, sample_env, t_last. cbn [counter].
    assert (E : (UINT32_MOD - 1 + Z.of_nat (1 + i)) mod UINT32_MOD = Z.of_nat i).
    { symmetry. apply (Z.mod_unique_pos _ UINT32_MOD 1); unfold UINT32_MOD in *; lia. }
    rewrite E. lia.
Qed.

Lemma microsleep_zero_spins_at_wrap :
  Z.of_nat 1 < UINT32_MOD
  /\ microsleep_hard sample_headers (env_pi3 t_last) 1 0 (pi3_ready t_last)
     = Spinning
         (push (EvRegRead clo 0)
            (push (EvRegRead clo (UINT32_MOD - 1)) (pi3_ready t_last))).
Proof.
  split; [reflexivity |].
  apply (microsleep_zero_spins_a_period 1). reflexivity.
Defined.

(** * Further properties of the two functions *)

(** ** What register reads leave alone *)

Lemma mappings_made_resolver v l :
  mappings_made (EvGetPiVersion v :: l) = mappings_made l.
Proof. reflexivity. Qed.

Arguments mappings_made : simpl never.

Lemma reads_keep_counts new l :
  Forall is_reg_read new ->
  resolver_calls (new ++ l) = resolver_calls l
  /\ mapper_calls (new ++ l) = mapper_calls l
  /\ mappings_made (new ++ l) = mappings_made l.
Proof.
  induction 1 as [| e new He _ IH].
  - auto.
  - destruct e; try contradiction. exact IH.
Qed.

Lemma load_reg_extends_reads env r s v s' :
  load_reg env r s = Some (v, s') -> extends is_reg_read s s'.
Proof.
  unfold load_reg. destruct (mapped (sys_timer_reg s)); [| discriminate].
  intros H. injection H as _ <-. apply extends_push. exact I.
Qed.

Lemma spin_extends_reads env fuel timout s :
  extends is_reg_read s (loop_state (spin env fuel timout s)).
Proof.
  revert s. induction fuel as [| fuel IH]; intros s; simpl.
  - apply extends_refl.
  - destruct (load_reg env clo s) as [[v s'] |] eqn:E.
    + pose proof (load_reg_extends_reads env clo s v s' E) as Hx.
      destruct (v <? timout).
      * eapply extends_trans; [exact Hx | apply IH].
      * exact Hx.
    + apply extends_refl.
Qed.

(** After the lazy setup, [microsleep_hard] logs register reads only. *)
Lemma microsleep_hard_tail_reads hdr env fuel usec s :
  extends is_reg_read
    (if config_flag s =? 0 then snd (setup_microsleep_hard hdr env s) else s)
    (final_state (microsleep_hard hdr env fuel usec s)).
Proof.
  unfold microsleep_hard.
  set (s1 := if config_flag s =? 0 then _ else s).
  destruct (load_reg env clo s1) as [[v s2] |] eqn:E; [| apply extends_refl].
  pose proof (load_reg_extends_reads env clo s1 v s2 E) as H2.
  pose proof (spin_extends_reads env fuel (wrap_uint32 (v + usec)) s2) as H3.
  apply (extends_trans _ _ s2); [exact H2 |].
  destruct (spin env fuel (wrap_uint32 (v + usec)) s2); exact H3.
Qed.

Lemma setup_flag_counts_mappings hdr env s :
  flag_counts_mappings s ->
  flag_counts_mappings (snd (setup_microsleep_hard hdr env s)).
Proof.
  intros Hs. destruct (Z.eq_dec (config_flag s) 0) as [Hf | Hf].
  - destruct Hs as [[_ Hn] | [H1 _]]; [| congruence].
    unfold flag_counts_mappings.
    setup_paths hdr env s Hf.
    + left. rewrite mappings_made_resolver. auto.
    + left. rewrite mappings_made_failed, mappings_made_resolver. auto.
    + right. rewrite mappings_made_ok, mappings_made_resolver, Hn by assumption. auto.
  - rewrite (setup_configured hdr env s Hf). exact Hs.
Qed.

Lemma microsleep_flag_counts_mappings hdr env fuel usec s :
  flag_counts_mappings s ->
  flag_counts_mappings (final_state (microsleep_hard hdr env fuel usec s)).
Proof.
  intros Hs.
  pose proof (microsleep_hard_globals hdr env fuel usec s) as (_ & Hflag & _).
  destruct (microsleep_hard_tail_reads hdr env fuel usec s) as (new & Hlog & Hreads).
  set (s1 := if config_flag s =? 0 then _ else s) in *.
  destruct (reads_keep_counts new (log s1) Hreads) as (_ & _ & Hmade).
  assert (H1 : flag_counts_mappings s1).
  { unfold s1. destruct (config_flag s =? 0);
      [now apply setup_flag_counts_mappings | exact Hs]. }
  unfold flag_counts_mappings in *. rewrite Hflag, Hlog, Hmade. exact H1.
Qed.

(** ** Invariants of the process state *)

(** X1. In every state a process can reach through returned calls of the
    two functions, in any order, the globals are consistent: with
    [config_flag] 0 the register pointer is [NULL]; with [config_flag]
    set it equals [sys_timer_virt_addr], which is not [MAP_FAILED]. *)
Theorem reachable_well_formed hdr env s :
  reachable hdr env s -> well_formed s.
Proof.
  induction 1 as [| s _ IH | s fuel usec ret s' _ IH Hcall].
  - apply well_formed_initial.
  - now apply setup_well_formed.
  - pose proof (microsleep_hard_well_formed hdr env fuel usec s IH) as Hw.
    rewrite Hcall in Hw. exact Hw.
Qed.

Lemma reachable_well_formed_witness :
  reachable sample_headers (env_pi3 1000) (pi3_ready 1000)
  /\ well_formed (pi3_ready 1000).
Proof.
  assert (R : reachable sample_headers (env_pi3 1000) (pi3_ready 1000))
    by (apply reach_setup, reach_start).
  split; [exact R |].
  exact (reachable_well_formed sample_headers (env_pi3 1000) (pi3_ready 1000) R).
Defined.

(** X2. In every such state [config_flag] is 0 or 1 and counts the mappings
    made since the process started: explicit and lazy initialisation
    together, in any order and however often they fail, map the timer at
    most once. *)
Theorem reachable_maps_at_most_once hdr env s :
  reachable hdr env s -> flag_counts_mappings s.
Proof.
  induction 1 as [| s _ IH | s fuel usec ret s' _ IH Hcall].
  - left. split; reflexivity.
  - now apply setup_flag_counts_mappings.
  - pose proof (microsleep_flag_counts_mappings hdr env fuel usec s IH) as Hw.
    rewrite Hcall in Hw. exact Hw.
Qed.

Lemma reachable_maps_at_most_once_witness :
  reachable sample_headers env_map_fails_once
    (setup_times sample_headers env_map_fails_once 3 initial_state)
  /\ flag_counts_mappings (setup_times sample_headers env_map_fails_once 3 initial_state).
Proof.
  assert (R : reachable sample_headers env_map_fails_once
                (setup_times sample_headers env_map_fails_once 3 initial_state))
    by (apply reach_setup, reach_setup, reach_setup, reach_start).
  split; [exact R |].
  exact (reachable_maps_at_most_once sample_headers env_map_fails_once _ R).
Defined.

(** X3. Once [config_flag] is set, a call of [microsleep_hard] assigns no
    global and calls neither the resolver nor the mapper, whatever its
    delay and however it ends. *)
Theorem microsleep_configured_frame hdr env fuel usec s :
  config_flag s <> 0 ->
  same_globals s (final_state (microsleep_hard hdr env fuel usec s))
  /\ resolver_calls (log (final_state (microsleep_hard hdr env fuel usec s)))
     = resolver_calls (log s)
  /\ mapper_calls (log (final_state (microsleep_hard hdr env fuel usec s)))
     = mapper_calls (log s).
Proof.
  intros Hf.
  pose proof (microsleep_hard_globals hdr env fuel usec s) as Hg.
  destruct (microsleep_hard_tail_reads hdr env fuel usec s) as (new & Hlog & Hreads).
  destruct (Z.eqb_spec (config_flag s) 0) as [E | _]; [contradiction |].
  destruct (reads_keep_counts new (log s) Hreads) as (Hr & Hm & _).
  rewrite Hlog. auto.
Qed.

Lemma microsleep_configured_frame_witness :
  config_flag (pi3_ready 1000) <> 0
  /\ same_globals (pi3_ready 1000)
       (final_state (microsleep_hard sample_headers (env_pi3 1000) 10 3 (pi3_ready 1000)))
  /\ resolver_calls
       (log (final_state (microsleep_hard sample_headers (env_pi3 1000) 10 3 (pi3_ready 1000))))
     = resolver_calls (log (pi3_ready 1000))
  /\ mapper_calls
       (log (final_state (microsleep_hard sample_headers (env_pi3 1000) 10 3 (pi3_ready 1000))))
     = mapper_calls (log (pi3_ready 1000)).
Proof.
  split; [discriminate |].
  apply (microsleep_configured_frame sample_headers (env_pi3 1000) 10 3 (pi3_ready 1000)).
  discriminate.
Defined.

(** ** Statuses *)

(** X4. Whatever the delay and the state, the only status a call of
    [microsleep_hard] hands back is 0: no failure of the initializer ever
    reaches its caller as a status. *)
Theorem microsleep_status_is_zero hdr env fuel usec s ret s' :
  microsleep_hard hdr env fuel usec s = Returned ret s' -> ret = 0.
Proof. apply microsleep_hard_returns_zero. Qed.

Lemma microsleep_status_is_zero_witness :
  microsleep_hard sample_headers (env_pi3 1000) 10 3 initial_state
  = Returned 0 (polled (env_pi3 1000) 4 (pi3_ready 1000))
  /\ 0 = 0.
Proof.
  split; [reflexivity |].
  apply (microsleep_status_is_zero sample_headers (env_pi3 1000) 10 3 initial_state
           0 (polled (env_pi3 1000) 4 (pi3_ready 1000))).
  reflexivity.
Defined.

(** X5. [setup_microsleep_hard] returns 0, [-ENOPIVER] or -1 and nothing
    else; provided [ENOPIVER] is not 0, it returns 0 exactly when
    [config_flag] is set on return. *)
Theorem setup_status_tells_configured hdr env s :
  ENOPIVER hdr <> 0 ->
  (fst (setup_microsleep_hard hdr env s) = 0
   \/ fst (setup_microsleep_hard hdr env s) = - ENOPIVER hdr
   \/ fst (setup_microsleep_hard hdr env s) = -1)
  /\ (fst (setup_microsleep_hard hdr env s) = 0
      <-> config_flag (snd (setup_microsleep_hard hdr env s)) <> 0).
Proof.
  intros He. destruct (Z.eq_dec (config_flag s) 0) as [Hf | Hf].
  - setup_paths hdr env s Hf.
    + split; [auto |]. split; [lia | contradiction].
    + split; [auto |]. split; [discriminate | contradiction].
    + split; [auto |]. split; [discriminate | reflexivity].
  - rewrite (setup_configured hdr env s Hf). simpl. split; [auto |].
    split; [intros _; exact Hf | reflexivity].
Qed.

Lemma setup_status_tells_configured_witness :
  ENOPIVER sample_headers <> 0
  /\ (fst (setup_microsleep_hard sample_headers env_map_fails_once initial_state) = 0
      \/ fst (setup_microsleep_hard sample_headers env_map_fails_once initial_state)
         = - ENOPIVER sample_headers
      \/ fst (setup_microsleep_hard sample_headers env_map_fails_once initial_state) = -1)
  /\ (fst (setup_microsleep_hard sample_headers env_map_fails_once initial_state) = 0
      <-> config_flag (snd (setup_microsleep_hard sample_headers env_map_fails_once
                              initial_state)) <> 0).
Proof.
  split; [discriminate |].
  apply (setup_status_tells_configured sample_headers env_map_fails_once initial_state).
  discriminate.
Defined.

(** ** Explicit and lazy initialisation *)

(** X6. When a call of [setup_microsleep_hard] leaves [config_flag] set, a
    call of [microsleep_hard] after it ends as the same call without it
    would have: the explicit setup and the lazy one are interchangeable. *)
Theorem microsleep_after_setup hdr env fuel usec s :
  config_flag (snd (setup_microsleep_hard hdr env s)) <> 0 ->
  microsleep_hard hdr env fuel usec (snd (setup_microsleep_hard hdr env s))
  = microsleep_hard hdr env fuel usec s.
Proof.
  intros H. destruct (Z.eq_dec (config_flag s) 0) as [Hf | Hf].
  - unfold microsleep_hard at 1 2. rewrite Hf.
    destruct (Z.eqb_spec (config_flag (snd (setup_microsleep_hard hdr env s))) 0)
      as [E | _]; [contradiction |].
    reflexivity.
  - rewrite (setup_configured hdr env s Hf). reflexivity.
Qed.

Lemma microsleep_after_setup_witness :
  config_flag (snd (setup_microsleep_hard sample_headers (env_pi3 1000) initial_state)) <> 0
  /\ microsleep_hard sample_headers (env_pi3 1000) 10 3
       (snd (setup_microsleep_hard sample_headers (env_pi3 1000) initial_state))
     = microsleep_hard sample_headers (env_pi3 1000) 10 3 initial_state.
Proof.
  split; [discriminate |].
  apply (microsleep_after_setup sample_headers (env_pi3 1000) 10 3 initial_state).
  discriminate.
Defined.

(** X7. An unrecognised board is not remembered.  As long as the resolver
    answers outside 0..5, each of [n] calls of [setup_microsleep_hard]
    asks it again and returns [-ENOPIVER]; the mapper is never called and
    the globals stay as they were. *)
Theorem setup_unknown_board_requeried hdr env s n :
  config_flag s = 0 ->
  (forall i, ~ known_generation (get_pi_version__ env i)) ->
  same_globals s (setup_times hdr env n s)
  /\ resolver_calls (log (setup_times hdr env n s)) = (resolver_calls (log s) + n)%nat
  /\ mapper_calls (log (setup_times hdr env n s)) = mapper_calls (log s)
  /\ fst (setup_microsleep_hard hdr env (setup_times hdr env n s)) = - ENOPIVER hdr.
Proof.
  intros Hf Hunk. revert s Hf. induction n as [| n IH]; intros s Hf.
  - simpl. split; [apply same_globals_refl |]. split; [lia |]. split; [reflexivity |].
    rewrite setup_unknown; [reflexivity | exact Hf |].
    apply select_peri_base_unknown, Hunk.
  - simpl setup_times.
    assert (E : setup_microsleep_hard hdr env s = (- ENOPIVER hdr, after_resolver env s)).
    { apply setup_unknown; [exact Hf |]. apply select_peri_base_unknown, Hunk. }
    rewrite E. simpl snd.
    destruct (IH (after_resolver env s) Hf) as (Hg & Hr & Hm & Hret).
    split; [| split; [| split]].
    + eapply same_globals_trans; [| exact Hg]. unfold same_globals. simpl. auto.
    + rewrite Hr. unfold after_resolver, resolver_calls. simpl. lia.
    + rewrite Hm. reflexivity.
    + exact Hret.
Qed.

Lemma setup_unknown_board_requeried_witness :
  config_flag initial_state = 0
  /\ (forall i, ~ known_generation (get_pi_version__ env_unknown_board i))
  /\ same_globals initial_state (setup_times sample_headers env_unknown_board 3 initial_state)
  /\ resolver_calls (log (setup_times sample_headers env_unknown_board 3 initial_state))
     = (resolver_calls (log initial_state) + 3)%nat
  /\ mapper_calls (log (setup_times sample_headers env_unknown_board 3 initial_state))
     = mapper_calls (log initial_state)
  /\ fst (setup_microsleep_hard sample_headers env_unknown_board
            (setup_times sample_headers env_unknown_board 3 initial_state))
     = - ENOPIVER sample_headers.
Proof.
  assert (U : forall i, ~ known_generation (get_pi_version__ env_unknown_board i))
    by (intros i [H _]; simpl in H; lia).
  split; [reflexivity |]. split; [exact U |].
  apply (setup_unknown_board_requeried sample_headers env_unknown_board initial_state 3).
  - reflexivity.
  - exact U.
Defined.

(** X8. The only mapper answer [setup_microsleep_hard] takes for a failure
    is [MAP_FAILED].  On a [NULL] answer it returns 0 with [config_flag]
    set and the register pointer [NULL]; from then on every call of
    [setup_microsleep_hard] returns 0 without trying again and every call
    of [microsleep_hard] reads [clo] through [NULL]. *)
Theorem setup_null_mapping_latches hdr env s b :
  config_flag s = 0 ->
  select_peri_base hdr (next_pi_version env s) = Some b ->
  mapper_answer hdr env s b = NULL ->
  fst (setup_microsleep_hard hdr env s) = 0
  /\ config_flag (snd (setup_microsleep_hard hdr env s)) = 1
  /\ sys_timer_reg (snd (setup_microsleep_hard hdr env s)) = NULL
  /\ setup_microsleep_hard hdr env (snd (setup_microsleep_hard hdr env s))
     = (0, snd (setup_microsleep_hard hdr env s))
  /\ forall fuel usec,
       microsleep_hard hdr env fuel usec (snd (setup_microsleep_hard hdr env s))
       = Fault (snd (setup_microsleep_hard hdr env s)).
Proof.
  intros Hf Hb Hn.
  assert (Hm : mapper_answer hdr env s b <> MAP_FAILED) by (rewrite Hn; discriminate).
  rewrite (setup_map_ok hdr env s b Hf Hb Hm). rewrite Hn. simpl fst. simpl snd.
  split; [reflexivity |]. split; [reflexivity |]. split; [reflexivity |].
  split.
  - apply setup_configured. simpl. discriminate.
  - intros fuel usec. reflexivity.
Qed.

Lemma setup_null_mapping_latches_witness :
  config_flag initial_state = 0
  /\ select_peri_base sample_headers (next_pi_version env_null_mapping initial_state)
     = Some 0x3F000000
  /\ mapper_answer sample_headers env_null_mapping initial_state 0x3F000000 = NULL
  /\ fst (setup_microsleep_hard sample_headers env_null_mapping initial_state) = 0
  /\ config_flag (snd (setup_microsleep_hard sample_headers env_null_mapping initial_state)) = 1
  /\ sys_timer_reg (snd (setup_microsleep_hard sample_headers env_null_mapping initial_state))
     = NULL
  /\ setup_microsleep_hard sample_headers env_null_mapping
       (snd (setup_microsleep_hard sample_headers env_null_mapping initial_state))
     = (0, snd (setup_microsleep_hard sample_headers env_null_mapping initial_state))
  /\ forall fuel usec,
       microsleep_hard sample_headers env_null_mapping fuel usec
         (snd (setup_microsleep_hard sample_headers env_null_mapping initial_state))
       = Fault (snd (setup_microsleep_hard sample_headers env_null_mapping initial_state)).
Proof.
  split; [reflexivity |]. split; [reflexivity |]. split; [reflexivity |].
  apply (setup_null_mapping_latches sample_headers env_null_mapping initial_state 0x3F000000);
    reflexivity.
Defined.

(** ** How long a call waits *)

(** While the reads stay below a target [t] that a jump of [gap] cannot
    carry the counter past the end of the 32-bit range from, the counter
    stays in the 2^32-period it started in, at or below the target. *)
Lemma same_period env gap t q n j :
  (forall i, counter env i <= counter env (S i) <= counter env i + gap) ->
  t + gap < UINT32_MOD ->
  UINT32_MOD * q <= counter env n <= UINT32_MOD * q + t ->
  (forall i, (i < j)%nat -> clo_at env (n + 1 + i) < t) ->
  forall k, (k <= j)%nat ->
    UINT32_MOD * q <= counter env (n + k) <= UINT32_MOD * q + t.
Proof.
  intros Hstep Hgap H0 Hbelow k. induction k as [| k IH]; intros Hk.
  - rewrite Nat.add_0_r. exact H0.
  - specialize (IH ltac:(lia)).
    pose proof (Hstep (n + k)%nat) as Hs.
    pose proof (Hbelow k ltac:(lia)) as Hb.
    replace (n + 1 + k)%nat with (S (n + k)) in Hb by lia.
    replace (n + S k)%nat with (S (n + k)) by lia.
    rewrite clo_at_counter in Hb.
    set (c := counter env (S (n + k))) in *.
    assert (E : c mod UINT32_MOD = c - UINT32_MOD * q).
    { symmetry. apply (Z.mod_unique_pos c UINT32_MOD q); lia. }
    lia.
Qed.

(** X9. Configured, with a counter that never goes back and a target that
    does not wrap ([clo] at the start plus [usec] below 2^32), a call that
    returns has seen the counter gain at least [usec] ticks between its
    first and its last read. *)
Theorem delay_lower_bound hdr env fuel usec s ret s' :
  configured s ->
  (forall i, counter env i <= counter env (S i)) ->
  0 <= usec ->
  clo_at env (reg_accesses (log s)) + usec < UINT32_MOD ->
  microsleep_hard hdr env fuel usec s = Returned ret s' ->
  counter env (reg_accesses (log s)) + usec
  <= counter env (Nat.pred (reg_accesses (log s'))).
Proof. apply microsleep_hard_waits. Qed.

Lemma delay_lower_bound_witness :
  configured (pi3_ready 1000)
  /\ (forall i, counter (env_pi3 1000) i <= counter (env_pi3 1000) (S i))
  /\ 0 <= 3
  /\ clo_at (env_pi3 1000) (reg_accesses (log (pi3_ready 1000))) + 3 < UINT32_MOD
  /\ microsleep_hard sample_headers (env_pi3 1000) 10 3 (pi3_ready 1000)
     = Returned 0 (polled (env_pi3 1000) 4 (pi3_ready 1000))
  /\ counter (env_pi3 1000) (reg_accesses (log (pi3_ready 1000))) + 3
     <= counter (env_pi3 1000)
          (Nat.pred (reg_accesses (log (polled (env_pi3 1000) 4 (pi3_ready 1000))))).
Proof.
  assert (M : forall i, counter (env_pi3 1000) i <= counter (env_pi3 1000) (S i))
    by (intros i; apply sample_counter_step).
  split; [split; [discriminate | reflexivity] |].
  split; [exact M |]. split; [lia |]. split; [reflexivity |]. split; [reflexivity |].
  apply (delay_lower_bound sample_headers (env_pi3 1000) 10 3 (pi3_ready 1000) 0
           (polled (env_pi3 1000) 4 (pi3_ready 1000))).
  - split; [discriminate | reflexivity].
  - exact M.
  - lia.
  - reflexivity.
  - reflexivity.
Defined.

(** X10. Configured, with a counter that never goes back and gains at most
    [gap] ticks between two reads, and with [clo] at the start plus [usec]
    plus [gap] below 2^32, a call that returns has seen the counter gain at
    most [usec + gap] ticks between its first and its last read. *)
Theorem delay_upper_bound hdr env fuel usec gap s ret s' :
  configured s ->
  (forall i, counter env i <= counter env (S i) <= counter env i + gap) ->
  0 <= usec ->
  clo_at env (reg_accesses (log s)) + usec + gap < UINT32_MOD ->
  microsleep_hard hdr env fuel usec s = Returned ret s' ->
  counter env (Nat.pred (reg_accesses (log s')))
  <= counter env (reg_accesses (log s)) + usec + gap.
Proof.
  intros Hc Hstep Hu Hfit.
  rewrite (microsleep_hard_configured hdr env fuel usec s Hc).
  destruct (spin env fuel _ (polled env 1 s)) as [s3 | s3 | s3] eqn:E; try discriminate.
  intros H. injection H as _ <-.
  destruct (spin_exited env _ _ _ _ E) as (j & -> & Hbelow & _).
  rewrite !polled_accesses in *.
  set (n0 := reg_accesses (log s)) in *.
  replace (Nat.pred (n0 + 1 + S j)) with (S (n0 + j)) by lia.
  assert (Hg : 0 <= gap) by (specialize (Hstep O); lia).
  pose proof (clo_at_range env n0) as Hr0.
  rewrite wrap_uint32_small in Hbelow by lia.
  assert (HM : 0 < UINT32_MOD) by reflexivity.
  pose proof (Z.div_mod (counter env n0) UINT32_MOD ltac:(lia)) as Hdm.
  rewrite <- clo_at_counter in Hdm.
  pose proof (same_period env gap (clo_at env n0 + usec) (counter env n0 / UINT32_MOD)
                n0 j Hstep ltac:(lia) ltac:(lia) Hbelow j (le_n j)) as Hper.
  pose proof (Hstep (n0 + j)%nat) as Hlast.
  lia.
Qed.

Lemma delay_upper_bound_witness :
  configured (pi3_ready 1000)
  /\ (forall i, counter (env_pi3 1000) i
                <= counter (env_pi3 1000) (S i)
                <= counter (env_pi3 1000) i + 1)
  /\ 0 <= 3
  /\ clo_at (env_pi3 1000) (reg_accesses (log (pi3_ready 1000))) + 3 + 1 < UINT32_MOD
  /\ microsleep_hard sample_headers (env_pi3 1000) 10 3 (pi3_ready 1000)
     = Returned 0 (polled (env_pi3 1000) 4 (pi3_ready 1000))
  /\ counter (env_pi3 1000)
       (Nat.pred (reg_accesses (log (polled (env_pi3 1000) 4 (pi3_ready 1000)))))
     <= counter (env_pi3 1000) (reg_accesses (log (pi3_ready 1000))) + 3 + 1.
Proof.
  split; [split; [discriminate | reflexivity] |].
  split; [intros i; apply sample_counter_step |].
  split; [lia |]. split; [reflexivity |]. split; [reflexivity |].
  apply (delay_upper_bound sample_headers (env_pi3 1000) 10 3 1 (pi3_ready 1000) 0
           (polled (env_pi3 1000) 4 (pi3_ready 1000))).
  - split; [discriminate | reflexivity].
  - intros i; apply sample_counter_step.
  - lia.
  - reflexivity.
  - reflexivity.
Defined.

(** X11. Configured, let the counter never go back, never stop for good and
    gain at most [gap] ticks between two reads.  If the target, [clo] at
    the start plus [usec] modulo 2^32, is at least [gap] below 2^32, the
    loop terminates: there is an amount of fuel from which on
    [microsleep_hard] returns 0, in one and the same state. *)
Theorem microsleep_terminates hdr env s usec gap :
  configured s ->
  (forall i, counter env i <= counter env (S i) <= counter env i + gap) ->
  (forall b, exists i, b <= counter env i) ->
  wrap_uint32 (clo_at env (reg_accesses (log s)) + usec) + gap <= UINT32_MOD ->
  exists fuel s', forall extra,
    microsleep_hard hdr env (fuel + extra) usec s = Returned 0 s'.
Proof.
  intros Hc Hstep Hunb Hgap.
  set (timout := wrap_uint32 (clo_at env (reg_accesses (log s)) + usec)) in *.
  pose proof (wrap_uint32_range (clo_at env (reg_accesses (log s)) + usec)) as Ht.
  fold timout in Ht.
  assert (Hm : mapped (sys_timer_reg (polled env 1 s)) = true).
  { destruct (polled_globals env 1 s) as (_ & _ & E). rewrite E. apply Hc. }
  destruct (counter_reaches env gap timout
              (reg_accesses (log (polled env 1 s))) Hstep Hunb) as [j Hj];
    [lia | lia |].
  destruct (spin_reaches env j _ _ Hm Hj) as (k & _ & Hk).
  exists (S k), (polled env (S k) (polled env 1 s)). intros extra.
  rewrite (microsleep_hard_configured hdr env _ usec s Hc).
  fold timout. rewrite Hk. reflexivity.
Qed.

Lemma microsleep_terminates_witness :
  configured (pi3_ready 1000)
  /\ (forall i, counter (env_pi3 1000) i
                <= counter (env_pi3 1000) (S i)
                <= counter (env_pi3 1000) i + 1)
  /\ (forall b, exists i, b <= counter (env_pi3 1000) i)
  /\ wrap_uint32 (clo_at (env_pi3 1000) (reg_accesses (log (pi3_ready 1000))) + 3) + 1
     <= UINT32_MOD
  /\ exists fuel s', forall extra,
       microsleep_hard sample_headers (env_pi3 1000) (fuel + extra) 3 (pi3_ready 1000)
       = Returned 0 s'.
Proof.
  split; [split; [discriminate | reflexivity] |].
  split; [intros i; apply sample_counter_step |].
  split; [intros b; apply sample_counter_unbounded |].
  split; [discriminate |].
  apply (microsleep_terminates sample_headers (env_pi3 1000) (pi3_ready 1000) 3 1).
  - split; [discriminate | reflexivity].
  - intros i; apply sample_counter_step.
  - intros b; apply sample_counter_unbounded.
  - discriminate.
Defined.

(** X12. Configured, a call returns on the first read of the loop that is
    not below the target, and nowhere else: if the first [j] reads of the
    loop are below the target and the next one is not, the call returns 0
    after [j + 2] reads of [clo] in all, with any fuel above [j]. *)
Theorem microsleep_returns_at_first_reach hdr env usec s j extra :
  configured s ->
  (forall i, (i < j)%nat ->
     clo_at env (S (reg_accesses (log s)) + i)
     < wrap_uint32 (clo_at env (reg_accesses (log s)) + usec)) ->
  wrap_uint32 (clo_at env (reg_accesses (log s)) + usec)
  <= clo_at env (S (reg_accesses (log s)) + j) ->
  microsleep_hard hdr env (S j + extra) usec s = Returned 0 (polled env (j + 2) s).
Proof.
  intros Hc Hbelow Hreach.
  rewrite (microsleep_hard_configured hdr env _ usec s Hc).
  assert (Hn : reg_accesses (log (polled env 1 s)) = S (reg_accesses (log s)))
    by (rewrite polled_accesses; lia).
  rewrite (spin_exits env j extra).
  - replace (j + 2)%nat with (S (S j)) by lia. reflexivity.
  - destruct (polled_globals env 1 s) as (_ & _ & E). rewrite E. apply Hc.
  - rewrite Hn. exact Hbelow.
  - rewrite Hn. exact Hreach.
Qed.

Lemma microsleep_returns_at_first_reach_witness :
  configured (pi3_ready 1000)
  /\ (forall i, (i < 2)%nat ->
        clo_at (env_pi3 1000) (S (reg_accesses (log (pi3_ready 1000))) + i)
        < wrap_uint32 (clo_at (env_pi3 1000) (reg_accesses (log (pi3_ready 1000))) + 3))
  /\ wrap_uint32 (clo_at (env_pi3 1000) (reg_accesses (log (pi3_ready 1000))) + 3)
     <= clo_at (env_pi3 1000) (S (reg_accesses (log (pi3_ready 1000))) + 2)
  /\ microsleep_hard sample_headers (env_pi3 1000) (3 + 5) 3 (pi3_ready 1000)
     = Returned 0 (polled (env_pi3 1000) (2 + 2) (pi3_ready 1000)).
Proof.
  assert (B : forall i, (i < 2)%nat ->
        clo_at (env_pi3 1000) (S (reg_accesses (log (pi3_ready 1000))) + i)
        < wrap_uint32 (clo_at (env_pi3 1000) (reg_accesses (log (pi3_ready 1000))) + 3)).
  { intros i Hi. destruct i as [| [| i]]; [reflexivity | reflexivity | lia]. }
  split; [split; [discriminate | reflexivity] |].
  split; [exact B |]. split; [discriminate |].
  apply (microsleep_returns_at_first_reach sample_headers (env_pi3 1000) 3
           (pi3_ready 1000) 2 5).
  - split; [discriminate | reflexivity].
  - exact B.
  - discriminate.
Defined.

(** X13. Configured, when [clo] at the start plus [usec] reaches or passes
    2^32 and the next read of [clo] is not below the first, the first
    evaluation of the loop condition is false: the call returns 0 after two
    reads, whatever [usec] is. *)
Theorem wrapped_target_returns_after_two_reads hdr env fuel usec s :
  configured s ->
  0 <= usec < UINT32_MOD ->
  UINT32_MOD <= clo_at env (reg_accesses (log s)) + usec ->
  clo_at env (reg_accesses (log s)) <= clo_at env (S (reg_accesses (log s))) ->
  microsleep_hard hdr env (S fuel) usec s = Returned 0 (polled env 2 s).
Proof. apply microsleep_hard_early_at_wrap. Qed.

Lemma wrapped_target_returns_after_two_reads_witness :
  configured (pi3_ready t_near_wrap)
  /\ 0 <= 1000000 < UINT32_MOD
  /\ UINT32_MOD
     <= clo_at (env_pi3 t_near_wrap) (reg_accesses (log (pi3_ready t_near_wrap))) + 1000000
  /\ clo_at (env_pi3 t_near_wrap) (reg_accesses (log (pi3_ready t_near_wrap)))
     <= clo_at (env_pi3 t_near_wrap) (S (reg_accesses (log (pi3_ready t_near_wrap))))
  /\ microsleep_hard sample_headers (env_pi3 t_near_wrap) 1 1000000 (pi3_ready t_near_wrap)
     = Returned 0 (polled (env_pi3 t_near_wrap) 2 (pi3_ready t_near_wrap)).
Proof.
  split; [split; [discriminate | reflexivity] |].
  split; [split; [discriminate | reflexivity] |].
  split; [discriminate |]. split; [discriminate |].
  apply (wrapped_target_returns_after_two_reads sample_headers (env_pi3 t_near_wrap)
           0 1000000 (pi3_ready t_near_wrap)).
  - split; [discriminate | reflexivity].
  - split; [discriminate | reflexivity].
  - discriminate.
  - discriminate.
Defined.

(** X14. Configured, a zero delay returns 0 after two reads of [clo]
    whenever the second read is not below the first. *)
Theorem zero_delay_returns_after_two_reads hdr env fuel s :
  configured s ->
  clo_at env (reg_accesses (log s)) <= clo_at env (S (reg_accesses (log s))) ->
  microsleep_hard hdr env (S fuel) 0 s = Returned 0 (polled env 2 s).
Proof. apply microsleep_hard_zero. Qed.

Lemma zero_delay_returns_after_two_reads_witness :
  configured (pi3_ready 1000)
  /\ clo_at (env_pi3 1000) (reg_accesses (log (pi3_ready 1000)))
     <= clo_at (env_pi3 1000) (S (reg_accesses (log (pi3_ready 1000))))
  /\ microsleep_hard sample_headers (env_pi3 1000) 1 0 (pi3_ready 1000)
     = Returned 0 (polled (env_pi3 1000) 2 (pi3_ready 1000)).
Proof.
  split; [split; [discriminate | reflexivity] |].
  split; [discriminate |].
  apply (zero_delay_returns_after_two_reads sample_headers (env_pi3 1000) 0 (pi3_ready 1000)).
  - split; [discriminate | reflexivity].
  - discriminate.
Defined.
